(** * The forecast-to-display pipeline of the hourly-weather card

    A shallow embedding of [src/hourly-weather.ts]: the methods
    [determineHoursPerSegment], [getConditionListFromForecast],
    [getTemperatures], [isForecastDaily], [formatHour], [getColorSettings],
    [isValidColor] and the part of [render] that calls them, and, of the
    configuration of the card, [setConfig], [getStubConfig], [shouldUpdate]
    and the guard of [_handleAction]; followed by the properties the
    specification states about them, and by further properties of the code.

    Conventions of the embedding.
    - A JavaScript [number] is modelled by the type [number] below: the
      integers, negative zero, the two infinities and NaN.  The program only
      builds numbers from [parseInt], array lengths, differences of time
      values and the operators [+ - * / % < >], so no other value arises
      apart from the quotient [numHours / hoursPerSegment], which the source
      passes to [Math.floor] at once; the two are modelled as one operation.
      Arithmetic is exact: the rounding of doubles beyond 2^53 is not
      modelled.
    - The [datetime] of a forecast segment is carried as the time value of
      its timestamp, an integer number of milliseconds; the feed's timestamps
      parse (they are ISO-8601 strings), so no invalid date arises.
    - [forecast[i]] on an index that is no element yields [undefined], and the
      property read that follows throws a [TypeError]; the monad [M] records
      that, together with a log of the indices read, of the loop iterations
      entered and of the methods invoked.
    - The two [for] loops are run with fuel;
      [getConditionListFromForecast_fuel_total] and
      [getTemperatures_fuel_total] show that the fuel the methods pass is
      always enough, and the [_fuel_enough] lemmas that more changes
      nothing. *)

From Stdlib Require QArith_base.
From Stdlib Require Import Ascii String.
From stdpp Require Import base numbers list gmap strings pretty.

Local Open Scope Z_scope.

(** ** JavaScript numbers *)

Inductive number : Type :=
| NaN
| NegInf
| Num (z : Z)     (* an integer; [Num 0] is +0 *)
| NegZero         (* -0 *)
| PosInf.

#[global] Instance number_eq_dec : EqDecision number.
Proof. solve_decision. Defined.

(** The integer a finite number stands for (both zeros stand for 0). *)
Definition finite (x : number) : option Z :=
  match x with
  | Num z => Some z
  | NegZero => Some 0
  | _ => None
  end.

(** Sign bit: [true] for negative numbers and for -0. *)
Definition negative (x : number) : bool :=
  match x with
  | NegInf | NegZero => true
  | Num z => z <? 0
  | _ => false
  end.

(** A zero of the given sign. *)
Definition zero (neg : bool) : number := if neg then NegZero else Num 0.

(** An infinity of the given sign. *)
Definition infinity (neg : bool) : number := if neg then NegInf else PosInf.

(** A finite value with the sign to use when it is zero. *)
Definition of_Z (neg_zero : bool) (z : Z) : number :=
  if z =? 0 then zero neg_zero else Num z.

(** Unary minus. *)
Definition number_neg (x : number) : number :=
  match x with
  | NaN => NaN
  | NegInf => PosInf
  | PosInf => NegInf
  | NegZero => Num 0
  | Num z => of_Z true (- z)
  end.

(** [x + y]. *)
Definition number_add (x y : number) : number :=
  match x, y with
  | NaN, _ | _, NaN => NaN
  | PosInf, NegInf | NegInf, PosInf => NaN
  | PosInf, _ | _, PosInf => PosInf
  | NegInf, _ | _, NegInf => NegInf
  | NegZero, NegZero => NegZero
  | NegZero, Num b => Num b
  | Num a, NegZero => Num a
  | Num a, Num b => Num (a + b)
  end.

(** [x - y]. *)
Definition number_sub (x y : number) : number := number_add x (number_neg y).

(** [x * y]. *)
Definition number_mul (x y : number) : number :=
  let neg := xorb (negative x) (negative y) in
  match x, y with
  | NaN, _ | _, NaN => NaN
  | (PosInf | NegInf), (PosInf | NegInf) => infinity neg
  | (PosInf | NegInf), f | f, (PosInf | NegInf) =>
      if bool_decide (finite f = Some 0) then NaN else infinity neg
  | _, _ =>
      match finite x, finite y with
      | Some a, Some b => of_Z neg (a * b)
      | _, _ => NaN
      end
  end.

(** [x < y]; false as soon as one side is NaN. *)
Definition number_lt (x y : number) : bool :=
  match x, y with
  | NaN, _ | _, NaN => false
  | _, NegInf | PosInf, _ => false
  | NegInf, _ | _, PosInf => true
  | _, _ =>
      match finite x, finite y with
      | Some a, Some b => a <? b
      | _, _ => false
      end
  end.

(** [x > y]. *)
Definition number_gt (x y : number) : bool := number_lt y x.

(** [Math.floor(x / y)]. *)
Definition Math_floor_div (x y : number) : number :=
  let neg := xorb (negative x) (negative y) in
  match x, y with
  | NaN, _ | _, NaN => NaN
  | (PosInf | NegInf), (PosInf | NegInf) => NaN
  | (PosInf | NegInf), _ => infinity neg
  | _, (PosInf | NegInf) => zero neg
  | _, _ =>
      match finite x, finite y with
      | Some a, Some b =>
          if b =? 0 then (if a =? 0 then NaN else infinity neg)
          else if a =? 0 then zero neg
          else Num (a `div` b)
      | _, _ => NaN
      end
  end.

(** [x % y !== 0]: the remainder is NaN, hence different from 0, when [x] is
    not finite or [y] is a zero or NaN; it is [x] when [y] is infinite. *)
Definition number_rem_nonzero (x y : number) : bool :=
  match finite x, y with
  | None, _ | _, NaN => true
  | Some a, (PosInf | NegInf) => negb (a =? 0)
  | Some a, _ =>
      match finite y with
      | Some b => if b =? 0 then true else negb (Z.rem a b =? 0)
      | None => true
      end
  end.

(** [Math.round(p / q)] for integers [p] and [q > 0], the quotient taken
    exactly: halves round up, and a result of zero keeps the sign of [p]. *)
Definition Math_round_div (p q : Z) : number :=
  of_Z (p <? 0) ((2 * p + q) `div` (2 * q)).

(** ** Outcomes, the event log and the monad *)

Inductive method : Type :=
| determineHoursPerSegment_m
| isForecastDaily_m
| getConditionListFromForecast_m
| getTemperatures_m
| getColorSettings_m.

#[global] Instance method_eq_dec : EqDecision method.
Proof. solve_decision. Defined.

Inductive event : Type :=
| Invoke (m : method)   (* a call of one of the card's methods *)
| Index (i : number)    (* an evaluation of [forecast[i]] *)
| Iteration.            (* an entry into the body of a [for] loop *)

#[global] Instance event_eq_dec : EqDecision event.
Proof. solve_decision. Defined.

Inductive outcome (A : Type) : Type :=
| Returned (a : A)
| TypeError      (* a property of [undefined] was read *)
| OutOfFuel.     (* the model's loop budget ran out *)
Arguments Returned {A} a.
Arguments TypeError {A}.
Arguments OutOfFuel {A}.

(** A computation: the events it performed and how it ended. *)
Definition M (A : Type) : Type := list event * outcome A.

Definition ret {A} (a : A) : M A := ([], Returned a).
Definition throw {A} : M A := ([], TypeError).
Definition tell (e : event) : M unit := ([e], Returned tt).

Definition bind {A B} (f : A → M B) (m : M A) : M B :=
  match m with
  | (log, Returned a) => let '(log', r) := f a in (log ++ log', r)
  | (log, TypeError) => (log, TypeError)
  | (log, OutOfFuel) => (log, OutOfFuel)
  end.

#[global] Instance M_ret : MRet M := @ret.
#[global] Instance M_bind : MBind M := @bind.

Definition events {A} (m : M A) : list event := m.1.
Definition result {A} (m : M A) : outcome A := m.2.

(** The indices read and the number of loop iterations entered. *)
Definition indices (log : list event) : list number :=
  omap (λ e, match e with Index i => Some i | _ => None end) log.
Definition iterations (log : list event) : nat :=
  length (filter (λ e, e = Iteration) log).
Definition invoked (m : method) (log : list event) : Prop := Invoke m ∈ log.

(** [for (...; cond; ...) body], the update being part of [body]. *)
Fixpoint for_loop {S : Type} (fuel : nat) (cond : S → bool) (body : S → M S)
    (s : S) : M S :=
  match fuel with
  | O => ([], OutOfFuel)
  | Datatypes.S fuel' =>
      if cond s then
        tell Iteration;;
        s' ← body s;
        for_loop fuel' cond body s'
      else ret s
  end.

(** ** The data model *)

(** [datetime] holds the time value, in milliseconds since the epoch, that
    [new Date(datetime).getTime()] yields for the ISO-8601 string of the
    feed. *)
Record ForecastSegment : Type := {
  datetime : Z;
  condition : string;
  temperature : QArith_base.Q;
}.

(** [[condition, runLength]] *)
Definition ConditionSpan : Type := string * Z.

(** [{ hour, temperature }]; the second field is named apart from the
    field of [ForecastSegment]. *)
Record HourTemperature : Type := {
  hour : string;
  temperature_label : string;
}.

(** [forecast[i]]: the element at property key [ToString(i)], if any. *)
Definition element {A} (l : list A) (i : number) : option A :=
  match finite i with
  | Some z => if z <? 0 then None else l !! Z.to_nat z
  | None => None
  end.

(** [forecast[i].p]: reads the element and throws if it is [undefined]. *)
Definition index (forecast : list ForecastSegment) (i : number)
    : M ForecastSegment :=
  tell (Index i);;
  match element forecast i with
  | Some fs => ret fs
  | None => throw
  end.

(** [forecast.length] *)
Definition length_of {A} (l : list A) : number := Num (Z.of_nat (length l)).

(** ** The host: what the card takes from its environment *)

(** The services of the dashboard, of [custom-card-helpers], of
    [is-valid-css-color] and of the module [./conditions] that the pipeline
    calls.  The locale argument of the formatting functions is part of the
    host. *)
Class Host : Type := {
  (** offset of local time from UTC, in milliseconds, at a time value *)
  LocalTZA : Z → Z;
  (** [formatTime(date, locale)] on the time value of [date] *)
  formatTime : Z → string;
  (** [formatNumber(n, locale)] *)
  formatNumber : QArith_base.Q → string;
  (** [localize(key)] *)
  localize : string → string;
  (** [key in ICONS]: whether [key] is a property of the table of icons of
      [./conditions], which is what the validator takes a recognized
      condition to be *)
  in_ICONS : string → bool;
  isValidRGB : string → bool;
  isValidColorName : string → bool;
  isValidHSL : string → bool;
}.

(** ** Strings and dates of the language *)

(** [s.includes(pat)] *)
Definition includes (s pat : string) : bool :=
  bool_decide (is_Some (String.index 0 pat s)).

(** [s.replace(pat, by)] for a string pattern: the first occurrence only. *)
Definition replace (s pat by_ : string) : string :=
  match String.index 0 pat s with
  | Some n =>
      String.substring 0 n s +:+ by_ +:+
      String.substring (n + String.length pat)
        (String.length s - (n + String.length pat)) s
  | None => s
  end.

Definition msPerDay : Z := 86400000.

(** [Day(t)]: the number of the day a time value falls on. *)
Definition Day (t : Z) : Z := t `div` msPerDay.

(** [DateFromTime(t)]: the day of the month, 1 to 31, of a time value in the
    proleptic Gregorian calendar.  Days are counted from 0000-03-01 in eras of
    400 years (146097 days), so that the leap day ends the year. *)
Definition DateFromTime (t : Z) : Z :=
  let z := Day t + 719468 in
  let era := z `div` 146097 in
  let doe := z - era * 146097 in
  let yoe :=
    (doe - doe `div` 1460 + doe `div` 36524 - doe `div` 146096) `div` 365 in
  let doy := doe - (365 * yoe + yoe `div` 4 - yoe `div` 100) in
  let mp := (5 * doy + 2) `div` 153 in
  doy - (153 * mp + 2) `div` 5 + 1.

(** [new Date(t).getDate()]: the day of the month in local time. *)
Definition getDate `{Host} (t : Z) : Z := DateFromTime (t + LocalTZA t).

(** White space that [parseInt] skips (the ASCII part of it). *)
Definition is_white_space (c : ascii) : bool :=
  bool_decide (nat_of_ascii c ∈ [9; 10; 11; 12; 13; 32]%nat).

Fixpoint skip_white_space (s : string) : string :=
  match s with
  | String c s' => if is_white_space c then skip_white_space s' else s
  | EmptyString => s
  end.

Definition digit (c : ascii) : option Z :=
  let n := Z.of_nat (nat_of_ascii c) in
  if bool_decide (48 ≤ n ≤ 57) then Some (n - 48) else None.

(** The value of the longest prefix of decimal digits, if it is not empty. *)
Fixpoint digits (acc : option Z) (s : string) : option Z :=
  match s with
  | String c s' =>
      match digit c with
      | Some d => digits (Some (10 * default 0 acc + d)) s'
      | None => acc
      end
  | EmptyString => acc
  end.

(** [parseInt(s, 10)] *)
Definition parseInt (s : string) : number :=
  let s := skip_white_space s in
  let '(neg, s) :=
    match s with
    | String "-" s' => (true, s')
    | String "+" s' => (false, s')
    | _ => (false, s)
    end in
  match digits None s with
  | None => NaN
  | Some z => if neg then of_Z true (- z) else Num z
  end.

(** ** The segment resolution detector *)

Definition determineHoursPerSegment (forecast : list ForecastSegment)
    : number :=
  match forecast with
  | fs1 :: fs2 :: _ =>
      let delta := datetime fs2 - datetime fs1 in
      Math_round_div delta (1000 * 3600)
  | _ => Num 1   (* forecast.length < 2 *)
  end.

(** ** The condition run-length encoder *)

(** The variables of the loop of [getConditionListFromForecast]. *)
Record enc_state : Type := {
  enc_i : number;
  enc_j : nat;
  enc_lastCond : string;
  enc_res : list ConditionSpan;
}.

Definition enc_cond (numHours hoursPerSegment offset : number)
    (st : enc_state) : bool :=
  number_lt (number_mul (enc_i st) hoursPerSegment)
            (number_add numHours (number_mul offset hoursPerSegment)).

Definition enc_body (forecast : list ForecastSegment) (st : enc_state)
    : M enc_state :=
  fs ← index forecast (enc_i st);
  let cond := condition fs in
  if String.eqb cond (enc_lastCond st) then
    (* res[j][1]++ *)
    match enc_res st !! enc_j st with
    | Some (c, n) =>
        ret {| enc_i := number_add (enc_i st) (Num 1);
               enc_j := enc_j st;
               enc_lastCond := enc_lastCond st;
               enc_res := <[enc_j st := (c, n + 1)]> (enc_res st) |}
    | None => throw
    end
  else
    ret {| enc_i := number_add (enc_i st) (Num 1);
           enc_j := Datatypes.S (enc_j st);
           enc_lastCond := cond;
           enc_res := enc_res st ++ [(cond, 1)] |}.

Definition getConditionListFromForecast_fuel (fuel : nat)
    (forecast : list ForecastSegment) (numHours hoursPerSegment offset : number)
    : M (list ConditionSpan) :=
  fs ← index forecast offset;
  let lastCond := condition fs in
  st ← for_loop fuel (enc_cond numHours hoursPerSegment offset)
         (enc_body forecast)
         {| enc_i := number_add offset (Num 1);
            enc_j := 0%nat;
            enc_lastCond := lastCond;
            enc_res := [(lastCond, 1)] |};
  ret (enc_res st).

Definition getConditionListFromForecast (forecast : list ForecastSegment)
    (numHours hoursPerSegment offset : number) : M (list ConditionSpan) :=
  getConditionListFromForecast_fuel (Datatypes.S (length forecast))
    forecast numHours hoursPerSegment offset.

(** ** The temperature extractor *)

Definition formatHour `{Host} (time : Z) : string :=
  let formatted := formatTime time in
  if includes formatted "AM" || includes formatted "PM" then
    replace formatted ":00" ""
  else formatted.

(** The variables of the loop of [getTemperatures]. *)
Record temp_state : Type := {
  temp_i : number;
  temp_temperatures : list HourTemperature;
}.

Definition temp_cond (numHours hoursPerSegment offset : number)
    (st : temp_state) : bool :=
  number_lt (temp_i st)
            (number_add (Math_floor_div numHours hoursPerSegment) offset).

Definition temp_body `{Host} (forecast : list ForecastSegment)
    (st : temp_state) : M temp_state :=
  fs ← index forecast (temp_i st);
  ret {| temp_i := number_add (temp_i st) (Num 1);
         temp_temperatures :=
           temp_temperatures st ++
           [ {| hour := formatHour (datetime fs);
                temperature_label := formatNumber (temperature fs) |} ] |}.

Definition getTemperatures_fuel `{Host} (fuel : nat)
    (forecast : list ForecastSegment) (numHours hoursPerSegment offset : number)
    : M (list HourTemperature) :=
  st ← for_loop fuel (temp_cond numHours hoursPerSegment offset)
         (temp_body forecast)
         {| temp_i := offset; temp_temperatures := [] |};
  ret (temp_temperatures st).

Definition getTemperatures `{Host} (forecast : list ForecastSegment)
    (numHours hoursPerSegment offset : number) : M (list HourTemperature) :=
  getTemperatures_fuel (Datatypes.S (length forecast))
    forecast numHours hoursPerSegment offset.

(** ** The daily-forecast classifier *)

Definition isForecastDaily `{Host} (forecast : list ForecastSegment) : bool :=
  let dates : list Z := (λ f, getDate (datetime f)) <$> forecast in
  let uniqueDates : gset Z := list_to_set dates in
  bool_decide (Z.of_nat (size uniqueDates) >= Z.of_nat (length forecast) - 1)%Z.

(** ** The color configuration validator *)

(** A color configuration, as the list [Object.entries] makes of it: every
    key occurs once. *)
Abbreviation ColorConfig := (list (string * string)).

Record ColorSettings : Type := {
  validColors : option (gmap string string);   (* [None] is [undefined] *)
  warnings : list string;
}.

Definition isValidColor `{Host} (key color : string) : bool :=
  if negb (in_ICONS key) then false
  else if negb (isValidRGB color || isValidColorName color || isValidHSL color)
  then false
  else true.

(** The callback of [forEach], on the pair of [validColors] and [warnings]. *)
Definition color_step `{Host} (acc : gmap string string * list string)
    (entry : string * string) : gmap string string * list string :=
  let '(k, v) := entry in
  if isValidColor k v then (<[k := v]> acc.1, acc.2)
  else (acc.1, acc.2 ++ [k +:+ ": " +:+ v]).

Definition getColorSettings `{Host} (colorConfig : option ColorConfig)
    : ColorSettings :=
  match colorConfig with
  | None => {| validColors := None; warnings := [] |}
  | Some entries =>
      let acc := foldl color_step (∅, []) entries in
      {| validColors := Some acc.1; warnings := acc.2 |}
  end.

(** ** Rendering *)

(** The options of the card that the pipeline reads. *)
Record HourlyWeatherCardConfig : Type := {
  num_hours : option string;
  offset : option string;
  colors : option ColorConfig;
}.

(** The advisories of the card; their wording is left to the host. *)
Inductive advisory : Type :=
| daily_forecasts
| num_hours_not_multiple (hoursPerSegment : number)
| invalid_colors (rejected : list string).

(** What [render] hands to the dashboard: the error card of [_showError], or
    the card with its advisories and the properties of the weather bar. *)
Inductive TemplateResult : Type :=
| error_card (error : string)
| ha_card (advisories : list advisory) (conditions : list ConditionSpan)
    (temperatures : list HourTemperature)
    (bar_colors : option (gmap string string)).

(** A call of a method of the card. *)
Definition call {A} (m : method) (c : M A) : M A := tell (Invoke m);; c.

(** [render], given the forecast of the configured entity. *)
Definition render `{Host} (forecast : list ForecastSegment)
    (config : HourlyWeatherCardConfig) : M TemplateResult :=
  let numHours := parseInt (default "12" (num_hours config)) in
  let offset := parseInt (default "0" (offset config)) in
  hoursPerSegment ←
    call determineHoursPerSegment_m (ret (determineHoursPerSegment forecast));
  if number_gt numHours
       (number_mul (number_sub (length_of forecast) offset) hoursPerSegment)
  then ret (error_card (localize "errors.too_many_hours_requested"))
  else
    isDaily ← call isForecastDaily_m (ret (isForecastDaily forecast));
    conditionList ←
      call getConditionListFromForecast_m
        (getConditionListFromForecast forecast numHours hoursPerSegment offset);
    temperatures ←
      call getTemperatures_m
        (getTemperatures forecast numHours hoursPerSegment offset);
    let numHoursNotMultiple := number_rem_nonzero numHours hoursPerSegment in
    colorSettings ←
      call getColorSettings_m (ret (getColorSettings (colors config)));
    ret (ha_card
           ((if (isDaily : bool) then [daily_forecasts] else []) ++
            (if numHoursNotMultiple
             then [num_hours_not_multiple hoursPerSegment] else []) ++
            (if bool_decide (warnings colorSettings = [])
             then [] else [invalid_colors (warnings colorSettings)]))
           conditionList temperatures (validColors colorSettings)).

(** ** What the specification speaks of *)

(** The conditions a span list stands for: each condition repeated
    [runLength] times. *)
Definition expand (spans : list ConditionSpan) : list string :=
  spans ≫= λ sp, replicate (Z.to_nat sp.2) sp.1.

(** The sum of the [runLength]s. *)
Definition total_runLength (spans : list ConditionSpan) : Z :=
  foldr (λ sp acc, sp.2 + acc) 0 spans.

(** No two neighbours of a list are equal. *)
Definition adjacent_distinct {A} (l : list A) : Prop :=
  ∀ (i : nat) (x y : A), l !! i = Some x → l !! S i = Some y → x ≠ y.

(** The elements of [l], numbered from [i], whose number satisfies [p]. *)
Fixpoint select_from {A} (p : Z → bool) (i : Z) (l : list A) : list A :=
  match l with
  | [] => []
  | x :: l' =>
      if p i then x :: select_from p (i + 1) l' else select_from p (i + 1) l'
  end.

(** The requested window: the entries from [offset] on whose start, in
    hours, lies before the end of the [numHours] requested. *)
Definition in_window (numHours hoursPerSegment offset i : Z) : bool :=
  bool_decide (offset ≤ i ∧ i * hoursPerSegment < numHours + offset * hoursPerSegment).

Definition window {A} (forecast : list A) (numHours hoursPerSegment offset : Z)
    : list A :=
  select_from (in_window numHours hoursPerSegment offset) 0 forecast.

(** The bounds check of [render]. *)
Definition too_many_hours_requested {A} (forecast : list A)
    (numHours hoursPerSegment offset : number) : bool :=
  number_gt numHours
    (number_mul (number_sub (length_of forecast) offset) hoursPerSegment).

(** The entry [getTemperatures] makes of a forecast segment. *)
Definition hourTemperature `{Host} (fs : ForecastSegment) : HourTemperature :=
  {| hour := formatHour (datetime fs);
     temperature_label := formatNumber (temperature fs) |}.

(** The calendar day a time value falls on in local time: the time value
    truncated to the day. *)
Definition calendarDay `{Host} (t : Z) : Z := Day (t + LocalTZA t).

(** Consecutive entries are [N] hours apart. *)
Definition uniform_spacing (N : Z) (forecast : list ForecastSegment) : Prop :=
  ∀ (i : nat) fs fs', forecast !! i = Some fs → forecast !! S i = Some fs' →
    datetime fs' - datetime fs = N * 3600000.

(** The dates [isForecastDaily] collects. *)
Definition dates `{Host} (forecast : list ForecastSegment) : list Z :=
  (λ f, getDate (datetime f)) <$> forecast.

(** The text of the warning for a rejected entry. *)
Definition warning_text (entry : string * string) : string :=
  entry.1 +:+ ": " +:+ entry.2.

(** An entry the specification accepts: the key is a recognized condition
    and the color parses as an RGB or hex, a named or an HSL color. *)
Definition accepted `{Host} (entry : string * string) : bool :=
  in_ICONS entry.1 &&
  (isValidRGB entry.2 || isValidColorName entry.2 || isValidHSL entry.2).

(** ** The vocabulary of the proofs *)

(** The number of entries the encoder visits. *)
Definition visited (numHours hoursPerSegment : Z) : Z :=
  Z.max 1 ((numHours + hoursPerSegment - 1) `div` hoursPerSegment).

(** What holds of the loop's variables once the entries [offset] to
    [offset + k] have been visited. *)
Definition enc_inv (forecast : list ForecastSegment) (o : Z) (k : nat)
    (st : enc_state) : Prop :=
  enc_i st = Num (o + Z.of_nat k + 1) ∧
  (∃ res0 m, enc_res st = res0 ++ [(enc_lastCond st, m)] ∧
             enc_j st = length res0) ∧
  expand (enc_res st) = condition <$> take (S k) (drop (Z.to_nat o) forecast) ∧
  Forall (λ sp : ConditionSpan, 1 ≤ sp.2) (enc_res st) ∧
  adjacent_distinct (enc_res st).*1.

(** The events of [m] iterations that start after entry [offset + k]. *)
Definition enc_log (o : Z) (k m : nat) : list event :=
  seq k m ≫= λ q, [Iteration; Index (Num (o + Z.of_nat q + 1))].

(** The events of [m] iterations that start at entry [offset + k]. *)
Definition temp_log (o : Z) (k m : nat) : list event :=
  seq k m ≫= λ q, [Iteration; Index (Num (o + Z.of_nat q))].

(** What holds of the extractor's variables once [k] entries have been
    visited. *)
Definition temp_inv `{Host} (forecast : list ForecastSegment) (o : Z) (k : nat)
    (st : temp_state) : Prop :=
  temp_i st = Num (o + Z.of_nat k) ∧
  temp_temperatures st
  = hourTemperature <$> take k (drop (Z.to_nat o) forecast).

(** How many entries remain from index [i] on. *)
Definition remaining {A} (l : list A) (i : number) : nat :=
  match finite i with
  | Some z => if 0 <=? z then Z.to_nat (Z.of_nat (length l) - z) else 0
  | None => 0
  end.

(** ** A sample host and sample forecasts *)

(** A host in UTC with an English 12-hour locale, which shows whole
    numbers, knows three conditions and a few colors. *)
Definition sample_host : Host := {|
  LocalTZA := λ _, 0;
  formatTime := λ t,
    let h := (t `div` 3600000) `mod` 24 in
    let m := (t `div` 60000) `mod` 60 in
    pretty ((h + 11) `mod` 12 + 1) +:+ ":" +:+
    (if m <? 10 then "0" else "") +:+ pretty m +:+
    (if h <? 12 then " AM" else " PM");
  formatNumber := λ q,
    pretty (QArith_base.Qnum q `div` Z.pos (QArith_base.Qden q));
  localize := λ key, key;
  in_ICONS := λ key, bool_decide (key ∈ ["sunny"; "cloudy"; "rainy"]);
  isValidRGB := λ c, bool_decide (c ∈ ["#fff"; "rgb(0, 0, 0)"]);
  isValidColorName := λ c, bool_decide (c ∈ ["red"; "blue"]);
  isValidHSL := λ c, bool_decide (c = "hsl(0, 0%, 0%)");
|}.

(** A segment with the given condition, [hours] hours after the epoch. *)
Definition segment (cond : string) (hours : Z) : ForecastSegment :=
  {| datetime := hours * 3600000; condition := cond;
     temperature := QArith_base.Qmake 20 1 |}.

(** Two segments three hours apart. *)
Definition three_hourly : list ForecastSegment :=
  [segment "sunny" 0; segment "cloudy" 3].

(** Four hourly segments. *)
Definition hourly : list ForecastSegment :=
  [segment "sunny" 0; segment "sunny" 1; segment "cloudy" 2; segment "rainy" 3].

(** Three daily segments. *)
Definition daily : list ForecastSegment :=
  [segment "sunny" 0; segment "cloudy" 24; segment "rainy" 48].

(** Noon (UTC) of 2022-01-05, 2022-02-05 and 2022-03-05. *)
Definition monthly : list ForecastSegment :=
  [segment "sunny" (18997 * 24 + 12); segment "sunny" (19028 * 24 + 12);
   segment "sunny" (19056 * 24 + 12)].

(** Twenty-four hourly entries: six sunny, three cloudy, fifteen rainy. *)
Definition day_forecast : list ForecastSegment :=
  imap (λ i c, segment c (Z.of_nat i))
    (replicate 6 "sunny" ++ replicate 3 "cloudy" ++ replicate 15 "rainy").

(** ** The configuration of the card *)

(** The configuration object the dashboard hands to [setConfig]: the
    properties [setConfig] looks at, beside the options the pipeline reads.
    An [entity] of [None] is a missing or undefined one.  A [name] of [None]
    is a property the object does not have, [Some None] one that holds
    [undefined]: the spread of [setConfig] copies both kinds of the second. *)
Record CardConfig : Type := {
  entity : option string;
  name : option (option string);
  test_gui : bool;
  options : HourlyWeatherCardConfig;
}.

(** How [setConfig] ends: by throwing an [Error] with a message, by a
    [TypeError], or by assigning [this.config], after
    [getLovelace().setEditMode(true)] when [setEditMode] is set. *)
Inductive setConfig_result : Type :=
| threw (message : string)
| threw_TypeError
| stored (config : CardConfig) (setEditMode : bool).

(** [setConfig(config)]; [None] is a missing (falsy) configuration, and
    [lovelace] tells whether [getLovelace()] finds the dashboard, or returns
    [null]. *)
Definition setConfig `{Host} (lovelace : bool) (config : option CardConfig)
    : setConfig_result :=
  match config with
  | None => threw (localize "common.invalid_configuration")
  | Some config =>
      match entity config with
      | None | Some EmptyString => threw (localize "errors.missing_entity")
      | Some _ =>
          if test_gui config && negb lovelace then threw_TypeError
          else
            stored
              (* { name: localize('common.title'), ...config } *)
              {| entity := entity config;
                 name := Some (default (Some (localize "common.title"))
                                 (name config));
                 test_gui := test_gui config;
                 options := options config |}
              (test_gui config)
      end
  end.

(** [this.config] after a call of [setConfig]: a call that throws assigns
    nothing. *)
Definition this_config_after `{Host} (this_config : option CardConfig)
    (call : bool * option CardConfig) : option CardConfig :=
  match setConfig call.1 call.2 with
  | stored config' _ => Some config'
  | _ => this_config
  end.

(** A call of [setConfig] that throws. *)
Definition throws `{Host} (call : bool * option CardConfig) : Prop :=
  ∀ config' e, setConfig call.1 call.2 ≠ stored config' e.

(** [getStubConfig()]: the empty object. *)
Definition getStubConfig : CardConfig :=
  {| entity := None; name := None; test_gui := false;
     options := {| num_hours := None; offset := None; colors := None |} |}.

(** [shouldUpdate], given what [hasConfigOrEntityChanged] answers. *)
Definition shouldUpdate (this_config : option CardConfig)
    (hasConfigOrEntityChanged : bool) : bool :=
  match this_config with
  | None => false
  | Some _ => hasConfigOrEntityChanged
  end.

(** [_handleAction(ev)]: whether [handleAction] is called; [hass] tells
    whether [this.hass] is set, and [action] is [ev.detail.action]. *)
Definition _handleAction (hass : bool) (this_config : option CardConfig)
    (action : option string) : bool :=
  hass && bool_decide (is_Some this_config) &&
  match action with
  | None | Some EmptyString => false
  | Some _ => true
  end.

(** ** More vocabulary *)

(** The methods invoked, in order. *)
Definition invocations (log : list event) : list method :=
  omap (λ e, match e with Invoke m => Some m | _ => None end) log.

(** The advisories [render] shows. *)
Definition advisories_of (isDaily numHoursNotMultiple : bool)
    (hoursPerSegment : number) (rejected : list string) : list advisory :=
  (if isDaily then [daily_forecasts] else []) ++
  (if numHoursNotMultiple then [num_hours_not_multiple hoursPerSegment]
   else []) ++
  (if bool_decide (rejected = []) then [] else [invalid_colors rejected]).

(** A stored configuration names an entity and has the property [name]. *)
Definition well_configured (this_config : option CardConfig) : Prop :=
  ∀ config, this_config = Some config →
    (∃ e, entity config = Some e ∧ e ≠ EmptyString) ∧ is_Some (name config).

(** The first occurrence of [pat] in [s] starts at [m]. *)
Definition first_occurrence (pat s : string) (m : nat) : Prop :=
  String.substring m (String.length pat) s = pat ∧
  ∀ p, (p < m)%nat → String.substring p (String.length pat) s ≠ pat.

(** * Properties *)

(** ** Numbers *)

Lemma finite_of_Z neg z : finite (of_Z neg z) = Some z.
Proof.
  unfold of_Z, zero. destruct (Z.eqb_spec z 0) as [->|]; by destruct neg.
Qed.

Lemma finite_add x y a b :
  finite x = Some a → finite y = Some b →
  finite (number_add x y) = Some (a + b).
Proof. destruct x, y; simpl; intros; simplify_eq; f_equal; lia. Qed.

Lemma finite_neg x a : finite x = Some a → finite (number_neg x) = Some (- a).
Proof.
  destruct x; simpl; intros; simplify_eq; try done. apply finite_of_Z.
Qed.

Lemma finite_sub x y a b :
  finite x = Some a → finite y = Some b →
  finite (number_sub x y) = Some (a - b).
Proof.
  intros Hx Hy. unfold number_sub.
  rewrite (finite_add _ _ a (- b)); auto using finite_neg.
Qed.

Lemma finite_mul x y a b :
  finite x = Some a → finite y = Some b →
  finite (number_mul x y) = Some (a * b).
Proof.
  destruct x, y; intros Hx Hy; cbn in Hx, Hy; simplify_eq;
    unfold number_mul; cbn -[of_Z Z.mul]; apply finite_of_Z.
Qed.

Lemma ltb_bool_decide a b : (a <? b) = bool_decide (a < b).
Proof.
  destruct (Z.ltb_spec a b);
    by rewrite ?bool_decide_true, ?bool_decide_false by lia.
Qed.

Lemma finite_lt x y a b :
  finite x = Some a → finite y = Some b →
  number_lt x y = bool_decide (a < b).
Proof.
  destruct x, y; intros Hx Hy; cbn in Hx, Hy; simplify_eq;
    cbn -[Z.ltb]; apply ltb_bool_decide.
Qed.

Lemma finite_floor_div x y a b :
  finite x = Some a → finite y = Some b → b ≠ 0 →
  finite (Math_floor_div x y) = Some (a `div` b).
Proof.
  intros Hx Hy Hb.
  assert (finite (if a =? 0 then zero (xorb (negative x) (negative y))
                  else Num (a `div` b)) = Some (a `div` b)) as Hq.
  { destruct (Z.eqb_spec a 0) as [->|]; [|done].
    rewrite Z.div_0_l by done. unfold zero. by destruct (xorb _ _). }
  destruct x, y; simpl in *; simplify_eq;
    by rewrite ?(proj2 (Z.eqb_neq _ 0) Hb).
Qed.

(** The bounds check on finite numbers, and on integers. *)
Lemma too_many_hours_requested_finite {A} (forecast : list A)
    numHours hoursPerSegment offset n h o :
  finite numHours = Some n → finite hoursPerSegment = Some h →
  finite offset = Some o →
  too_many_hours_requested forecast numHours hoursPerSegment offset
  = bool_decide ((Z.of_nat (length forecast) - o) * h < n).
Proof.
  intros Hn Hh Ho. unfold too_many_hours_requested, number_gt, length_of.
  apply finite_lt; [|done].
  apply finite_mul; [|done]. by apply finite_sub.
Qed.

Lemma too_many_hours_requested_Num {A} (forecast : list A) n h o :
  too_many_hours_requested forecast (Num n) (Num h) (Num o)
  = bool_decide ((Z.of_nat (length forecast) - o) * h < n).
Proof. by apply too_many_hours_requested_finite. Qed.

(** ** Strings and dates *)

Lemma DateFromTime_range t : 1 ≤ DateFromTime t ≤ 31.
Proof.
  unfold DateFromTime, Day, msPerDay. cbv zeta.
  Z.to_euclidean_division_equations; lia.
Qed.

(** 1970-01-01, 1969-12-31, 2020-02-29, 2020-03-01 and 2022-01-05. *)
Example DateFromTime_examples :
  DateFromTime 0 = 1 ∧ DateFromTime (-1) = 31 ∧
  DateFromTime (18321 * msPerDay) = 29 ∧
  DateFromTime (18322 * msPerDay) = 1 ∧
  DateFromTime (18997 * msPerDay + 43200000) = 5.
Proof. by vm_compute. Qed.

Example parseInt_examples :
  parseInt "12" = Num 12 ∧ parseInt "  -3px" = Num (-3) ∧
  parseInt "+7.5" = Num 7 ∧ parseInt "-0" = NegZero ∧
  parseInt "" = NaN ∧ parseInt "twelve" = NaN.
Proof. by vm_compute. Qed.

Example Math_round_div_examples :
  Math_round_div 5400000 3600000 = Num 2 ∧
  Math_round_div (-5400000) 3600000 = Num (-1) ∧
  Math_round_div 1799999 3600000 = Num 0 ∧
  Math_round_div (-1800000) 3600000 = NegZero.
Proof. by vm_compute. Qed.

Example formatHour_examples :
  @formatHour sample_host 0 = "12 AM" ∧
  @formatHour sample_host (13 * 3600000 + 30 * 60000) = "1:30 PM" ∧
  replace "0:00:00" ":00" "" = "0:00".
Proof. by vm_compute. Qed.

(** ** The monad *)

Lemma bind_Returned {A B} (f : A → M B) log a :
  ((log, Returned a) ≫= f) = (log ++ (f a).1, (f a).2).
Proof. unfold mbind, M_bind, bind. by destruct (f a). Qed.

Lemma iterations_app l1 l2 :
  iterations (l1 ++ l2) = (iterations l1 + iterations l2)%nat.
Proof. unfold iterations. by rewrite filter_app, length_app. Qed.

Lemma indices_app l1 l2 : indices (l1 ++ l2) = indices l1 ++ indices l2.
Proof. apply omap_app. Qed.

Lemma indices_Index i l : indices (Index i :: l) = i :: indices l.
Proof. done. Qed.

Lemma iterations_Index i l : iterations (Index i :: l) = iterations l.
Proof. unfold iterations. by rewrite filter_cons_False. Qed.

Lemma iterations_Iteration l : iterations (Iteration :: l) = S (iterations l).
Proof. unfold iterations. by rewrite filter_cons_True. Qed.

(** ** Reading the forecast *)

Lemma element_Num {A} (l : list A) z :
  0 ≤ z → element l (Num z) = l !! Z.to_nat z.
Proof. intros. unfold element. simpl. by rewrite (proj2 (Z.ltb_ge _ _)). Qed.

Lemma element_Some {A} (l : list A) i x :
  element l i = Some x →
  ∃ z, finite i = Some z ∧ 0 ≤ z < Z.of_nat (length l).
Proof.
  unfold element. destruct (finite i) as [z|]; [|done].
  destruct (Z.ltb_spec z 0); [done|]. intros Hl%lookup_lt_Some.
  exists z. split; [done|lia].
Qed.

Lemma element_None_Num {A} (l : list A) z :
  ¬ (0 ≤ z < Z.of_nat (length l)) → element l (Num z) = None.
Proof.
  intros Hz. destruct (element l (Num z)) eqn:E; [|done].
  apply element_Some in E as (z' & ? & ?). simplify_eq/=. lia.
Qed.

Lemma index_Some forecast i fs :
  element forecast i = Some fs →
  index forecast i = ([Index i], Returned fs).
Proof. intros E. unfold index. by rewrite E. Qed.

Lemma index_None forecast i :
  element forecast i = None → index forecast i = ([Index i], TypeError).
Proof. intros E. unfold index. by rewrite E. Qed.

(** ** Loops *)

Lemma for_loop_done {S} fuel cond body (s : S) :
  cond s = false → for_loop (Datatypes.S fuel) cond body s = ret s.
Proof. intros Hc. simpl. by rewrite Hc. Qed.

Lemma for_loop_step {S} fuel cond body (s s' : S) log :
  cond s = true → body s = (log, Returned s') →
  for_loop (Datatypes.S fuel) cond body s
  = (Iteration :: log ++ events (for_loop fuel cond body s'),
     result (for_loop fuel cond body s')).
Proof.
  intros Hc Hb. cbn [for_loop]. rewrite Hc. unfold tell.
  rewrite bind_Returned. cbn [fst snd app]. by rewrite Hb, bind_Returned.
Qed.

Lemma for_loop_throw {S} fuel cond body (s : S) log :
  cond s = true → body s = (log, TypeError) →
  for_loop (Datatypes.S fuel) cond body s = (Iteration :: log, TypeError).
Proof.
  intros Hc Hb. cbn [for_loop]. rewrite Hc. unfold tell.
  rewrite bind_Returned. cbn [fst snd app]. by rewrite Hb.
Qed.

Lemma for_loop_out_of_fuel {S} fuel cond body (s : S) log :
  cond s = true → body s = (log, OutOfFuel) →
  for_loop (Datatypes.S fuel) cond body s = (Iteration :: log, OutOfFuel).
Proof.
  intros Hc Hb. cbn [for_loop]. rewrite Hc. unfold tell.
  rewrite bind_Returned. cbn [fst snd app]. by rewrite Hb.
Qed.

(** Fuel that suffices can be replaced by any larger amount. *)
Lemma for_loop_fuel_mono {S} cond body fuel fuel' (s : S) :
  result (for_loop fuel cond body s) ≠ OutOfFuel → (fuel ≤ fuel')%nat →
  for_loop fuel' cond body s = for_loop fuel cond body s.
Proof.
  revert fuel' s. induction fuel as [|fuel IH]; intros fuel' s Hr Hle.
  { by destruct Hr. }
  destruct fuel' as [|fuel']; [lia|].
  destruct (cond s) eqn:Hc.
  - destruct (body s) as [log [s'| |]] eqn:Hb.
    + rewrite !(for_loop_step _ _ _ s s' log) in * by done.
      simpl in Hr. rewrite (IH fuel' s') by (done || lia). done.
    + by rewrite !(for_loop_throw _ _ _ s log).
    + rewrite (for_loop_out_of_fuel _ _ _ s log) in Hr by done. by destruct Hr.
  - by rewrite !for_loop_done.
Qed.

(** A loop whose body, when it returns, decreases a measure does not run
    out of fuel larger than the measure. *)
Lemma for_loop_total {S} cond body (measure : S → nat) :
  (∀ s, match result (body s) with
        | Returned s' => (measure s' < measure s)%nat
        | TypeError => True
        | OutOfFuel => False
        end) →
  ∀ fuel s, (measure s < fuel)%nat →
    result (for_loop fuel cond body s) ≠ OutOfFuel.
Proof.
  intros Hbody fuel. induction fuel as [|fuel IH]; intros s Hm; [lia|].
  destruct (cond s) eqn:Hc; [|by rewrite for_loop_done].
  specialize (Hbody s). destruct (body s) as [log [s'| |]] eqn:Hb;
    simpl in Hbody; [| |done].
  - rewrite (for_loop_step _ _ _ s s' log) by done. apply IH. lia.
  - by rewrite (for_loop_throw _ _ _ s log).
Qed.

(** Such a loop is entered at most once more than the measure. *)
Lemma for_loop_iterations {S} cond body (measure : S → nat) :
  (∀ s, match result (body s) with
        | Returned s' => (measure s' < measure s)%nat
        | TypeError => True
        | OutOfFuel => False
        end) →
  (∀ s, iterations (events (body s)) = 0%nat) →
  ∀ fuel s,
    (iterations (events (for_loop fuel cond body s))
     ≤ Datatypes.S (measure s))%nat.
Proof.
  intros Hbody Hquiet fuel.
  induction fuel as [|fuel IH]; intros s; [cbn; lia|].
  destruct (cond s) eqn:Hc; [|rewrite for_loop_done by done; cbn; lia].
  specialize (Hbody s). specialize (Hquiet s).
  destruct (body s) as [log [s'| |]] eqn:Hb; simpl in Hbody; [| |done].
  - rewrite (for_loop_step _ _ _ s s' log) by done. unfold events at 1.
    cbn [fst]. rewrite iterations_Iteration, iterations_app.
    specialize (IH s'). unfold events in Hquiet. cbn [fst] in Hquiet. lia.
  - rewrite (for_loop_throw _ _ _ s log) by done. unfold events in *.
    cbn [fst] in *. rewrite iterations_Iteration. lia.
Qed.

(** ** Lists of spans *)

Lemma expand_snoc spans sp :
  expand (spans ++ [sp]) = expand spans ++ replicate (Z.to_nat sp.2) sp.1.
Proof. unfold expand. rewrite bind_app. simpl. by rewrite app_nil_r. Qed.

Lemma total_runLength_expand spans :
  Forall (λ sp : ConditionSpan, 1 ≤ sp.2) spans →
  total_runLength spans = Z.of_nat (length (expand spans)).
Proof.
  unfold total_runLength, expand.
  induction 1 as [|sp spans Hsp _ IH]; [done|].
  rewrite bind_cons, length_app, length_replicate. cbn [foldr].
  rewrite IH. simpl in Hsp. lia.
Qed.

Lemma adjacent_distinct_singleton {A} (x : A) : adjacent_distinct [x].
Proof. by intros [|i] ???. Qed.

Lemma adjacent_distinct_snoc {A} (l : list A) (x y : A) :
  adjacent_distinct (l ++ [x]) → x ≠ y → adjacent_distinct ((l ++ [x]) ++ [y]).
Proof.
  intros Hl Hxy i a b Ha Hb.
  destruct (decide (S i < length (l ++ [x]))%nat) as [Hi|Hi].
  - rewrite lookup_app_l in Ha, Hb by lia. eauto.
  - pose proof (lookup_lt_Some _ _ _ Hb) as Hlt.
    rewrite !length_app in Hi. rewrite !length_app in Hlt. simpl in Hi, Hlt.
    assert (i = length l) as -> by lia. clear Hi Hlt.
    rewrite lookup_app_l in Ha by (rewrite length_app; simpl; lia).
    rewrite list_lookup_middle in Ha by done.
    replace (S (length l)) with (length (l ++ [x])) in Hb
      by (rewrite length_app; simpl; lia).
    rewrite list_lookup_middle in Hb by done. congruence.
Qed.

(** ** The window *)

Lemma select_from_ge {A} (p : Z → bool) (l : list A) i b :
  (∀ q, i ≤ q → p q = bool_decide (q < b)) →
  select_from p i l = take (Z.to_nat (b - i)) l.
Proof.
  revert i. induction l as [|x l IH]; intros i Hp; simpl.
  { by rewrite take_nil. }
  rewrite Hp by lia. case_bool_decide.
  - rewrite (IH (i + 1)) by (intros; apply Hp; lia).
    replace (Z.to_nat (b - i)) with (S (Z.to_nat (b - (i + 1)))) by lia. done.
  - rewrite (IH (i + 1)) by (intros; apply Hp; lia).
    by replace (Z.to_nat (b - i)) with 0%nat by lia;
       replace (Z.to_nat (b - (i + 1))) with 0%nat by lia.
Qed.

Lemma select_from_interval {A} (p : Z → bool) (l : list A) i a b :
  i ≤ a →
  (∀ q, i ≤ q → p q = bool_decide (a ≤ q ∧ q < b)) →
  select_from p i l = take (Z.to_nat (b - a)) (drop (Z.to_nat (a - i)) l).
Proof.
  revert i. induction l as [|x l IH]; intros i Hi Hp; simpl.
  { by rewrite drop_nil, take_nil. }
  destruct (decide (i = a)) as [->|Hne].
  - rewrite Z.sub_diag. simpl. rewrite Hp by lia.
    rewrite <- (select_from_ge p (x :: l) a b).
    + simpl. by rewrite Hp by lia.
    + intros q Hq. rewrite Hp by lia. apply bool_decide_ext. lia.
  - rewrite Hp by lia. rewrite bool_decide_false by lia.
    rewrite (IH (i + 1)) by (lia || intros; apply Hp; lia).
    replace (Z.to_nat (a - i)) with (S (Z.to_nat (a - (i + 1)))) by lia. done.
Qed.

Lemma visited_spec n h q :
  1 ≤ h → 0 ≤ q → q * h < n ↔ q < (n + h - 1) `div` h.
Proof.
  intros Hh Hq. split; intros H.
  - enough (q + 1 ≤ (n + h - 1) `div` h) by lia.
    apply Z.div_le_lower_bound; lia.
  - assert (q + 1 ≤ (n + h - 1) `div` h) as H1 by lia.
    pose proof (Z.mul_div_le (n + h - 1) h ltac:(lia)). nia.
Qed.

Lemma window_take_drop {A} (forecast : list A) n h o :
  1 ≤ h → 0 ≤ o →
  window forecast n h o
  = take (Z.to_nat ((n + h - 1) `div` h)) (drop (Z.to_nat o) forecast).
Proof.
  intros Hh Ho. unfold window.
  rewrite (select_from_interval _ _ 0 o (o + (n + h - 1) `div` h)); [|lia|].
  - f_equal; [lia|]. f_equal; lia.
  - intros q Hq. unfold in_window. apply bool_decide_ext.
    pose proof (visited_spec n h (q - o) Hh) as Hv.
    split; intros [H1 H2]; (split; [done|]).
    + enough (q - o < (n + h - 1) `div` h) by lia. apply Hv; lia.
    + assert ((q - o) * h < n) by (apply Hv; lia). lia.
Qed.

(** ** The encoder's loop *)

Lemma enc_cond_Num n h o st i :
  enc_i st = Num i →
  enc_cond (Num n) (Num h) (Num o) st = bool_decide (i * h < n + o * h).
Proof.
  intros Hi. unfold enc_cond. rewrite Hi.
  apply finite_lt; [by apply finite_mul|].
  apply finite_add; [done|by apply finite_mul].
Qed.

Section encoder.
Context (forecast : list ForecastSegment) (n h o : Z).
Context (Hh : 1 ≤ h) (Ho : 0 ≤ o).

Lemma enc_body_inv k st fs :
  enc_inv forecast o k st →
  forecast !! (Z.to_nat o + S k)%nat = Some fs →
  ∃ st', enc_body forecast st
         = ([Index (Num (o + Z.of_nat k + 1))], Returned st') ∧
         enc_inv forecast o (S k) st'.
Proof using Ho.
  intros (Hi & (res0 & m & Hres & Hj) & Hexp & Hpos & Hadj) Hfs.
  assert (take (S (S k)) (drop (Z.to_nat o) forecast)
          = take (S k) (drop (Z.to_nat o) forecast) ++ [fs]) as Htake.
  { apply take_S_r. by rewrite lookup_drop. }
  unfold enc_body. rewrite Hi, (index_Some _ _ fs); last first.
  { rewrite element_Num by lia. rewrite <- Hfs. f_equal. lia. }
  rewrite bind_Returned. cbn [fst snd app].
  destruct (String.eqb_spec (condition fs) (enc_lastCond st)) as [Heq|Hne].
  - rewrite Hres, Hj, list_lookup_middle by done.
    rewrite insert_app_r_alt, Nat.sub_diag by done. cbn [insert list_insert].
    eexists. split; [done|]. unfold enc_inv. cbn.
    rewrite Hres in Hexp, Hpos, Hadj.
    apply Forall_app in Hpos as [Hpos0 Hm].
    rewrite Forall_singleton in Hm. cbn in Hm.
    split_and!.
    + f_equal. lia.
    + by exists res0, (m + 1).
    + rewrite expand_snoc in *. cbn [fst snd] in *.
      rewrite Htake, fmap_app, <- Hexp. cbn [fmap list_fmap]. rewrite Heq.
      replace (Z.to_nat (m + 1)) with (S (Z.to_nat m)) by lia.
      by rewrite replicate_S_end, (assoc_L (++)).
    + apply Forall_app. split; [done|]. apply Forall_singleton. cbn. lia.
    + by rewrite fmap_app in *.
  - eexists. split; [done|]. unfold enc_inv. cbn.
    split_and!.
    + f_equal. lia.
    + exists (enc_res st), 1. split; [done|].
      rewrite Hres, length_app, Hj. simpl. lia.
    + rewrite expand_snoc, Hexp, Htake, fmap_app. done.
    + apply Forall_app. split; [done|]. by apply Forall_singleton.
    + rewrite Hres, !fmap_app in *. cbn in *.
      apply adjacent_distinct_snoc; [done|]. congruence.
Qed.

Lemma enc_loop m : ∀ k st fuel,
  enc_inv forecast o k st → (m < fuel)%nat →
  Z.of_nat (k + m) + 1 = visited n h →
  o + visited n h ≤ Z.of_nat (length forecast) →
  ∃ st', for_loop fuel (enc_cond (Num n) (Num h) (Num o))
           (enc_body forecast) st
         = (enc_log o k m, Returned st') ∧
         enc_inv forecast o (k + m) st'.
Proof using Hh Ho.
  induction m as [|m IH]; intros k st fuel Hinv Hfuel Hv Hlen;
    (destruct fuel as [|fuel]; [lia|]).
  - exists st. rewrite Nat.add_0_r. split; [|done].
    apply for_loop_done. rewrite (enc_cond_Num _ _ _ _ _ (proj1 Hinv)).
    apply bool_decide_false. intros Hc.
    assert ((Z.of_nat k + 1) * h < n) as Hc'%visited_spec by lia; [|lia..].
    unfold visited in Hv. lia.
  - destruct (lookup_lt_is_Some_2 forecast (Z.to_nat o + S k)) as [fs Hfs];
      [lia|].
    destruct (enc_body_inv k st fs Hinv Hfs) as (st' & Hbody & Hinv').
    destruct (IH (S k) st' fuel) as (st'' & Hloop & Hinv''); [done|lia|lia|done|].
    assert (enc_cond (Num n) (Num h) (Num o) st = true) as Hc.
    { rewrite (enc_cond_Num _ _ _ _ _ (proj1 Hinv)).
      apply bool_decide_true.
      enough ((Z.of_nat k + 1) * h < n) by lia.
      apply visited_spec; [lia..|]. unfold visited in Hv. lia. }
    exists st''. rewrite (for_loop_step _ _ _ _ _ _ Hc Hbody), Hloop.
    replace (k + S m)%nat with (S k + m)%nat by lia. done.
Qed.

(** The run of the encoder on a window that the forecast covers. *)
Lemma encoder_run fuel :
  o + visited n h ≤ Z.of_nat (length forecast) →
  visited n h ≤ Z.of_nat fuel →
  ∃ spans,
    getConditionListFromForecast_fuel fuel forecast (Num n) (Num h) (Num o)
    = (Index (Num o) :: enc_log o 0 (Z.to_nat (visited n h - 1)),
       Returned spans) ∧
    expand spans
    = condition <$> take (Z.to_nat (visited n h)) (drop (Z.to_nat o) forecast) ∧
    Forall (λ sp : ConditionSpan, 1 ≤ sp.2) spans ∧
    adjacent_distinct spans.*1.
Proof using Hh Ho.
  intros Hlen Hfuel.
  assert (1 ≤ visited n h) as Hv by (unfold visited; lia).
  destruct (lookup_lt_is_Some_2 forecast (Z.to_nat o)) as [fs Hfs]; [lia|].
  unfold getConditionListFromForecast_fuel.
  rewrite (index_Some _ _ fs) by (by rewrite element_Num).
  rewrite bind_Returned. cbn [fst snd app].
  edestruct (enc_loop (Z.to_nat (visited n h - 1)) 0) as (st' & -> & Hinv);
    [|shelve|lia|done|].
  - unfold enc_inv. cbn. split_and!.
    + f_equal. lia.
    + by exists [], 1.
    + erewrite take_S_r by (by rewrite lookup_drop, Nat.add_0_r). done.
    + by apply Forall_singleton.
    + apply adjacent_distinct_singleton.
  - rewrite bind_Returned. cbn. rewrite app_nil_r.
    destruct Hinv as (_ & _ & Hexp & Hpos & Hadj).
    exists (enc_res st'). split_and!; [done| |done..].
    rewrite Hexp. do 2 f_equal. lia.
  Unshelve. lia.
Qed.
End encoder.

(** ** The extractor's loop *)

Lemma temp_cond_Num n h o st i :
  h ≠ 0 → temp_i st = Num i →
  temp_cond (Num n) (Num h) (Num o) st = bool_decide (i < n `div` h + o).
Proof.
  intros Hh Hi. unfold temp_cond. rewrite Hi.
  apply finite_lt; [done|].
  apply finite_add; [|done]. by apply finite_floor_div.
Qed.

Section extractor.
Context `{Host} (forecast : list ForecastSegment) (n h o : Z).
Context (Hh : 1 ≤ h) (Ho : 0 ≤ o).

Lemma temp_loop m : ∀ k st fuel,
  temp_inv forecast o k st → (m < fuel)%nat →
  Z.of_nat (k + m) = Z.max 0 (n `div` h) →
  o + Z.max 0 (n `div` h) ≤ Z.of_nat (length forecast) →
  ∃ st', for_loop fuel (temp_cond (Num n) (Num h) (Num o))
           (temp_body forecast) st
         = (temp_log o k m, Returned st') ∧
         temp_inv forecast o (k + m) st'.
Proof using Hh Ho.
  assert (h ≠ 0) as Hh0 by lia.
  induction m as [|m IH]; intros k st fuel [Hi Ht] Hfuel Hv Hlen;
    (destruct fuel as [|fuel]; [lia|]).
  - exists st. rewrite Nat.add_0_r. split; [|done].
    apply for_loop_done. rewrite (temp_cond_Num _ _ _ _ _ Hh0 Hi).
    apply bool_decide_false. lia.
  - destruct (lookup_lt_is_Some_2 forecast (Z.to_nat o + k)) as [fs Hfs];
      [lia|].
    assert (temp_cond (Num n) (Num h) (Num o) st = true) as Hc.
    { rewrite (temp_cond_Num _ _ _ _ _ Hh0 Hi).
      apply bool_decide_true. lia. }
    assert (temp_body forecast st
            = ([Index (Num (o + Z.of_nat k))],
               Returned {| temp_i := Num (o + Z.of_nat k + 1);
                           temp_temperatures :=
                             temp_temperatures st ++ [hourTemperature fs] |}))
      as Hbody.
    { unfold temp_body. rewrite Hi, (index_Some _ _ fs); [done|].
      rewrite element_Num by lia. rewrite <- Hfs. f_equal. lia. }
    set (st' := {| temp_i := Num (o + Z.of_nat k + 1);
                   temp_temperatures :=
                     temp_temperatures st ++ [hourTemperature fs] |}) in *.
    destruct (IH (S k) st' fuel) as (st'' & Hloop & Hinv'');
      [|lia|lia|done|].
    { split; cbn; [f_equal; lia|].
      erewrite take_S_r by (by rewrite lookup_drop).
      by rewrite fmap_app, Ht. }
    exists st''. rewrite (for_loop_step _ _ _ _ _ _ Hc Hbody), Hloop.
    replace (k + S m)%nat with (S k + m)%nat by lia. done.
Qed.

(** The run of the extractor on a window that the forecast covers. *)
Lemma extractor_run fuel :
  o + Z.max 0 (n `div` h) ≤ Z.of_nat (length forecast) →
  Z.max 0 (n `div` h) < Z.of_nat fuel →
  getTemperatures_fuel fuel forecast (Num n) (Num h) (Num o)
  = (temp_log o 0 (Z.to_nat (n `div` h)),
     Returned (hourTemperature <$>
               take (Z.to_nat (n `div` h)) (drop (Z.to_nat o) forecast))).
Proof using Hh Ho.
  intros Hlen Hfuel. unfold getTemperatures_fuel.
  edestruct (temp_loop (Z.to_nat (n `div` h)) 0) as (st' & -> & _ & Ht);
    [|shelve|lia|done|].
  - split; cbn; [f_equal; lia|done].
  - rewrite bind_Returned. cbn. by rewrite app_nil_r, Ht.
  Unshelve. lia.
Qed.
End extractor.

(** ** Both loops end, whatever the arguments *)

Lemma remaining_le {A} (l : list A) i : (remaining l i ≤ length l)%nat.
Proof.
  unfold remaining. destruct (finite i) as [z|]; [|lia].
  destruct (Z.leb_spec 0 z); lia.
Qed.

Lemma remaining_next {A} (l : list A) i x :
  element l i = Some x →
  (remaining l (number_add i (Num 1)) < remaining l i)%nat.
Proof.
  intros (z & Hz & Hlt)%element_Some. unfold remaining.
  rewrite (finite_add i (Num 1) z 1), Hz by done.
  destruct (Z.leb_spec 0 z), (Z.leb_spec 0 (z + 1)); lia.
Qed.

Lemma result_bind_ret {A B} (m : M A) (f : A → B) :
  result (x ← m; ret (f x)) ≠ OutOfFuel ↔ result m ≠ OutOfFuel.
Proof. by destruct m as [log [a| |]]. Qed.

Lemma enc_body_decreases forecast st :
  match result (enc_body forecast st) with
  | Returned st' =>
      (remaining forecast (enc_i st') < remaining forecast (enc_i st))%nat
  | TypeError => True
  | OutOfFuel => False
  end.
Proof.
  unfold enc_body. destruct (element forecast (enc_i st)) as [fs|] eqn:E.
  - rewrite (index_Some _ _ fs), bind_Returned by done. cbn [fst snd].
    destruct (String.eqb _ _); [destruct (_ !! _) as [[c m]|]|];
      cbn; eauto using remaining_next.
  - by rewrite (index_None _ _ E).
Qed.

Lemma temp_body_decreases `{Host} forecast st :
  match result (temp_body forecast st) with
  | Returned st' =>
      (remaining forecast (temp_i st') < remaining forecast (temp_i st))%nat
  | TypeError => True
  | OutOfFuel => False
  end.
Proof.
  unfold temp_body. destruct (element forecast (temp_i st)) as [fs|] eqn:E.
  - rewrite (index_Some _ _ fs), bind_Returned by done.
    cbn; eauto using remaining_next.
  - by rewrite (index_None _ _ E).
Qed.

(** The encoder never exhausts a budget larger than the forecast. *)
Lemma getConditionListFromForecast_fuel_total fuel forecast numHours
    hoursPerSegment offset :
  (length forecast < fuel)%nat →
  result (getConditionListFromForecast_fuel fuel forecast numHours
            hoursPerSegment offset) ≠ OutOfFuel.
Proof.
  intros Hfuel. unfold getConditionListFromForecast_fuel.
  destruct (element forecast offset) as [fs|] eqn:E.
  - rewrite (index_Some _ _ fs), bind_Returned by done. cbn [fst snd result].
    apply result_bind_ret.
    apply (for_loop_total _ _ (λ st, remaining forecast (enc_i st))).
    + apply enc_body_decreases.
    + pose proof (remaining_le forecast (enc_i
        {| enc_i := number_add offset (Num 1); enc_j := 0;
           enc_lastCond := condition fs;
           enc_res := [(condition fs, 1)] |})). lia.
  - by rewrite (index_None _ _ E).
Qed.

(** The extractor never exhausts a budget larger than the forecast. *)
Lemma getTemperatures_fuel_total `{Host} fuel forecast numHours
    hoursPerSegment offset :
  (length forecast < fuel)%nat →
  result (getTemperatures_fuel fuel forecast numHours hoursPerSegment offset)
  ≠ OutOfFuel.
Proof.
  intros Hfuel. unfold getTemperatures_fuel. apply result_bind_ret.
  apply (for_loop_total _ _ (λ st, remaining forecast (temp_i st))).
  - apply temp_body_decreases.
  - pose proof (remaining_le forecast offset). cbn. lia.
Qed.

(** More fuel than the methods pass changes nothing. *)
Lemma getConditionListFromForecast_fuel_enough fuel forecast numHours
    hoursPerSegment offset :
  (length forecast < fuel)%nat →
  getConditionListFromForecast_fuel fuel forecast numHours hoursPerSegment
    offset
  = getConditionListFromForecast forecast numHours hoursPerSegment offset.
Proof.
  intros Hfuel.
  pose proof (getConditionListFromForecast_fuel_total (S (length forecast))
                forecast numHours hoursPerSegment offset ltac:(lia)) as Htot.
  unfold getConditionListFromForecast.
  unfold getConditionListFromForecast_fuel in *.
  destruct (index forecast offset) as [log [fs| |]]; [|done..].
  rewrite !bind_Returned in *. cbn [fst snd result] in *.
  apply result_bind_ret in Htot.
  by rewrite (for_loop_fuel_mono _ _ (S (length forecast)) fuel) by (done || lia).
Qed.

Lemma getTemperatures_fuel_enough `{Host} fuel forecast numHours
    hoursPerSegment offset :
  (length forecast < fuel)%nat →
  getTemperatures_fuel fuel forecast numHours hoursPerSegment offset
  = getTemperatures forecast numHours hoursPerSegment offset.
Proof.
  intros Hfuel.
  pose proof (getTemperatures_fuel_total (S (length forecast))
                forecast numHours hoursPerSegment offset ltac:(lia)) as Htot.
  unfold getTemperatures. unfold getTemperatures_fuel in *.
  apply result_bind_ret in Htot.
  by rewrite (for_loop_fuel_mono _ _ (S (length forecast)) fuel) by (done || lia).
Qed.

(** ** The logs of the two loops *)

Lemma indices_enc_log o k m :
  indices (enc_log o k m) = (λ q, Num (o + Z.of_nat q + 1)) <$> seq k m.
Proof.
  unfold enc_log. revert k. induction m as [|m IH]; intros k; [done|].
  cbn [seq]. rewrite bind_cons, indices_app, IH. done.
Qed.

Lemma indices_temp_log o k m :
  indices (temp_log o k m) = (λ q, Num (o + Z.of_nat q)) <$> seq k m.
Proof.
  unfold temp_log. revert k. induction m as [|m IH]; intros k; [done|].
  cbn [seq]. rewrite bind_cons, indices_app, IH. done.
Qed.

(** ** The encoder on valid requests *)

Lemma visited_covered {A} (forecast : list A) n h o :
  1 ≤ h → n ≤ (Z.of_nat (length forecast) - o) * h →
  (n + h - 1) `div` h ≤ Z.of_nat (length forecast) - o.
Proof.
  intros Hh Hn. enough ((n + h - 1) `div` h < Z.of_nat (length forecast) - o + 1)
    by lia.
  apply Z.div_lt_upper_bound; lia.
Qed.

Lemma visited_positive n h : 1 ≤ h → 1 ≤ n → visited n h = (n + h - 1) `div` h.
Proof.
  intros Hh Hn. unfold visited.
  enough (1 ≤ (n + h - 1) `div` h) by lia.
  apply Z.div_le_lower_bound; lia.
Qed.

(** The encoder on a request that passes the bounds check. *)
Lemma encoder_valid forecast n h o :
  1 ≤ h → 0 ≤ o → 1 ≤ n → n ≤ (Z.of_nat (length forecast) - o) * h →
  ∃ spans,
    getConditionListFromForecast forecast (Num n) (Num h) (Num o)
    = (Index (Num o) :: enc_log o 0 (Z.to_nat ((n + h - 1) `div` h - 1)),
       Returned spans) ∧
    expand spans = condition <$> window forecast n h o ∧
    Forall (λ sp : ConditionSpan, 1 ≤ sp.2) spans ∧
    adjacent_distinct spans.*1.
Proof.
  intros Hh Ho Hn Hcov.
  pose proof (visited_covered forecast n h o Hh Hcov) as Hv.
  pose proof (visited_positive n h Hh Hn) as Hv'.
  destruct (encoder_run forecast n h o Hh Ho (S (length forecast)))
    as (spans & Hrun & Hexp & Hpos & Hadj); [lia..|].
  exists spans. unfold getConditionListFromForecast.
  rewrite Hrun, Hexp, window_take_drop, Hv' by done. done.
Qed.

(** C1, as the specification states it, fails: a three-hourly forecast asked
    for four hours is encoded with run lengths that sum to 2, not to
    [floor (4 / 3) = 1]. *)
Lemma encoder_sum_not_floor :
  determineHoursPerSegment three_hourly = Num 3 ∧
  1 ≤ 3 ∧ 0 ≤ 0 ∧ 1 ≤ 4 ∧
  4 ≤ (Z.of_nat (length three_hourly) - 0) * 3 ∧
  result (getConditionListFromForecast three_hourly (Num 4) (Num 3) (Num 0))
  = Returned [("sunny", 1); ("cloudy", 1)] ∧
  total_runLength [("sunny", 1); ("cloudy", 1)] ≠ 4 `div` 3.
Proof. by vm_compute. Qed.

(** C1 (amended): for every forecast, [hoursPerSegment >= 1], [offset >= 0]
    and [numHours >= 1] with
    [numHours <= (forecast.length - offset) * hoursPerSegment], the encoder
    returns spans whose run lengths sum to [numHours / hoursPerSegment]
    rounded up, which is [floor (numHours / hoursPerSegment)] when
    [numHours] is a multiple of [hoursPerSegment]. *)
Theorem encoder_runLength_sum forecast n h o :
  1 ≤ h → 0 ≤ o → 1 ≤ n → n ≤ (Z.of_nat (length forecast) - o) * h →
  ∃ spans,
    result (getConditionListFromForecast forecast (Num n) (Num h) (Num o))
    = Returned spans ∧
    total_runLength spans = (n + h - 1) `div` h ∧
    (n `mod` h = 0 → total_runLength spans = n `div` h).
Proof.
  intros Hh Ho Hn Hcov.
  destruct (encoder_valid forecast n h o) as (spans & -> & Hexp & Hpos & _);
    [done..|].
  pose proof (visited_covered forecast n h o Hh Hcov) as Hv.
  pose proof (visited_positive n h Hh Hn) as Hv'. unfold visited in Hv'.
  exists spans. split; [done|].
  assert (total_runLength spans = (n + h - 1) `div` h) as Hsum.
  { rewrite total_runLength_expand, Hexp, window_take_drop by done.
    rewrite length_fmap, length_take, length_drop. lia. }
  split; [done|]. intros Hmod. rewrite Hsum.
  rewrite (Z.div_mod n h), Hmod by lia.
  replace (h * n `div` h + 0 + h - 1) with (n `div` h * h + (h - 1)) by lia.
  rewrite Z.div_add_l, (Z.div_small (h - 1)) by lia.
  replace (h * n `div` h + 0) with (n `div` h * h) by lia.
  rewrite Z.div_mul by lia. lia.
Qed.

Lemma encoder_runLength_sum_witness :
  ∃ spans,
    result (getConditionListFromForecast hourly (Num 3) (Num 1) (Num 0))
    = Returned spans ∧
    total_runLength spans = (3 + 1 - 1) `div` 1 ∧
    (3 `mod` 1 = 0 → total_runLength spans = 3 `div` 1).
Proof. apply (encoder_runLength_sum hourly 3 1 0); vm_compute; congruence. Defined.

(** C2: for every forecast, [hoursPerSegment >= 1], [offset >= 0] and
    [numHours >= 1] within coverage, the encoder returns at least one span,
    every run length is at least 1, and the spans, each condition repeated
    [runLength] times, spell out the conditions of the window's entries in
    order. *)
Theorem encoder_reproduces_window forecast n h o :
  1 ≤ h → 0 ≤ o → 1 ≤ n → n ≤ (Z.of_nat (length forecast) - o) * h →
  ∃ spans,
    result (getConditionListFromForecast forecast (Num n) (Num h) (Num o))
    = Returned spans ∧
    expand spans = condition <$> window forecast n h o ∧
    (1 ≤ length spans)%nat ∧
    Forall (λ sp : ConditionSpan, 1 ≤ sp.2) spans.
Proof.
  intros Hh Ho Hn Hcov.
  destruct (encoder_valid forecast n h o) as (spans & -> & Hexp & Hpos & _);
    [done..|].
  exists spans. split_and!; [done..| |done].
  pose proof (visited_covered forecast n h o Hh Hcov) as Hv.
  pose proof (visited_positive n h Hh Hn) as Hv'. unfold visited in Hv'.
  destruct spans as [|sp spans]; [|simpl; lia].
  apply (f_equal length) in Hexp. revert Hexp.
  rewrite window_take_drop by done.
  rewrite length_fmap, length_take, length_drop. simpl. lia.
Qed.

Lemma encoder_reproduces_window_witness :
  ∃ spans,
    result (getConditionListFromForecast hourly (Num 3) (Num 1) (Num 1))
    = Returned spans ∧
    expand spans = condition <$> window hourly 3 1 1 ∧
    (1 ≤ length spans)%nat ∧
    Forall (λ sp : ConditionSpan, 1 ≤ sp.2) spans.
Proof.
  apply (encoder_reproduces_window hourly 3 1 1); vm_compute; congruence.
Defined.

(** C5: for every forecast and valid request, no two consecutive spans of
    the encoder's result have the same condition. *)
Theorem encoder_runs_maximal forecast n h o :
  1 ≤ h → 0 ≤ o → 1 ≤ n → n ≤ (Z.of_nat (length forecast) - o) * h →
  ∃ spans,
    result (getConditionListFromForecast forecast (Num n) (Num h) (Num o))
    = Returned spans ∧
    adjacent_distinct spans.*1.
Proof.
  intros Hh Ho Hn Hcov.
  destruct (encoder_valid forecast n h o) as (spans & -> & _ & _ & Hadj);
    [done..|].
  by exists spans.
Qed.

Lemma encoder_runs_maximal_witness :
  ∃ spans,
    result (getConditionListFromForecast hourly (Num 4) (Num 1) (Num 0))
    = Returned spans ∧
    adjacent_distinct spans.*1.
Proof.
  apply (encoder_runs_maximal hourly 4 1 0); vm_compute; congruence.
Defined.

(** ** Termination of the encoder's loop *)

(** The encoder when [forecast[offset]] is no element. *)
Lemma encoder_offset_outside fuel forecast numHours hoursPerSegment o :
  ¬ (0 ≤ o < Z.of_nat (length forecast)) →
  getConditionListFromForecast_fuel fuel forecast numHours hoursPerSegment
    (Num o)
  = ([Index (Num o)], TypeError).
Proof.
  intros Ho. unfold getConditionListFromForecast_fuel.
  by rewrite index_None by (by apply element_None_Num).
Qed.

(** The encoder when the loop's condition fails at once. *)
Lemma encoder_no_iteration fuel forecast n h o fs :
  forecast !! Z.to_nat o = Some fs → 0 ≤ o → n ≤ h →
  getConditionListFromForecast_fuel (S fuel) forecast (Num n) (Num h) (Num o)
  = ([Index (Num o)], Returned [(condition fs, 1)]).
Proof.
  intros Hfs Ho Hn. unfold getConditionListFromForecast_fuel.
  rewrite (index_Some _ _ fs) by (by rewrite element_Num).
  rewrite bind_Returned. cbn [fst snd].
  rewrite for_loop_done; [done|].
  rewrite (enc_cond_Num _ _ _ _ (o + 1)) by done.
  apply bool_decide_false. lia.
Qed.

Lemma enc_body_quiet forecast st :
  iterations (events (enc_body forecast st)) = 0%nat.
Proof.
  unfold enc_body. destruct (element forecast (enc_i st)) as [fs|] eqn:E.
  - rewrite (index_Some _ _ fs), bind_Returned by done. cbn [fst snd].
    by destruct (String.eqb _ _); [destruct (_ !! _) as [[c m]|]|].
  - by rewrite (index_None _ _ E).
Qed.

(** Whatever its arguments, the encoder enters its loop at most
    [forecast.length] times: every iteration reads one more entry. *)
Lemma encoder_iterations fuel forecast numHours hoursPerSegment offset :
  (iterations (events (getConditionListFromForecast_fuel fuel forecast numHours
                         hoursPerSegment offset))
   ≤ length forecast)%nat.
Proof.
  unfold getConditionListFromForecast_fuel.
  destruct (element forecast offset) as [fs|] eqn:E.
  - rewrite (index_Some _ _ fs), bind_Returned by done. cbn [fst snd].
    pose proof (remaining_next _ _ _ E) as Hnext.
    pose proof (remaining_le forecast offset) as Hle.
    pose proof (for_loop_iterations
                  (enc_cond numHours hoursPerSegment offset)
                  (enc_body forecast)
                  (λ st, remaining forecast (enc_i st))
                  (enc_body_decreases forecast) (enc_body_quiet forecast) fuel
                  {| enc_i := number_add offset (Num 1); enc_j := 0;
                     enc_lastCond := condition fs;
                     enc_res := [(condition fs, 1)] |}) as Hit.
    cbn [enc_i] in Hit.
    destruct (for_loop _ _ _ _) as [log [st| |]]; unfold events in *;
      cbn [fst app] in *; rewrite ?bind_Returned;
      unfold mbind, M_bind, bind; cbn [fst app ret];
      rewrite ?app_nil_r, iterations_Index; lia.
  - rewrite (index_None _ _ E). unfold events, mbind, M_bind, bind.
    cbn [fst]. rewrite iterations_Index. cbn. lia.
Qed.

(** C9: for every forecast and all numbers [numHours], [hoursPerSegment]
    (zero and negative ones too) and [offset] that pass the bounds check of
    [render], the encoder ends, and its loop is entered at most
    [forecast.length] times; for integers with [offset] an index of the
    forecast it ends by returning its spans, not by an exception. *)
Theorem encoder_terminates forecast numHours hoursPerSegment offset fuel :
  too_many_hours_requested forecast numHours hoursPerSegment offset = false →
  (length forecast < fuel)%nat →
  result (getConditionListFromForecast_fuel fuel forecast numHours
            hoursPerSegment offset) ≠ OutOfFuel ∧
  (iterations (events (getConditionListFromForecast_fuel fuel forecast
                         numHours hoursPerSegment offset))
   ≤ length forecast)%nat ∧
  (∀ n h o,
     numHours = Num n → hoursPerSegment = Num h → offset = Num o →
     0 ≤ o < Z.of_nat (length forecast) →
     ∃ spans,
       result (getConditionListFromForecast_fuel fuel forecast numHours
                 hoursPerSegment offset) = Returned spans).
Proof.
  intros Hcheck Hfuel.
  split; [by apply getConditionListFromForecast_fuel_total|].
  split; [apply encoder_iterations|].
  intros n h o -> -> -> Ho.
  rewrite too_many_hours_requested_Num in Hcheck.
  apply bool_decide_eq_false in Hcheck.
  destruct (decide (1 ≤ h)) as [Hh|Hh].
  - pose proof (visited_covered forecast n h o Hh) as Hv.
    destruct (encoder_run forecast n h o Hh (proj1 Ho) fuel)
      as (spans & -> & _); [unfold visited; lia..|].
    by exists spans.
  - destruct (lookup_lt_is_Some_2 forecast (Z.to_nat o)) as [fs Hfs]; [lia|].
    destruct fuel as [|fuel]; [lia|].
    rewrite (encoder_no_iteration _ _ _ _ _ fs) by (done || nia).
    by eexists.
Qed.

Lemma encoder_terminates_witness :
  result (getConditionListFromForecast_fuel 3 three_hourly (Num (-3))
            NegZero (Num 0)) ≠ OutOfFuel ∧
  (iterations (events (getConditionListFromForecast_fuel 3 three_hourly
                         (Num (-3)) NegZero (Num 0)))
   ≤ length three_hourly)%nat ∧
  ∃ spans,
    result (getConditionListFromForecast_fuel 3 three_hourly (Num (-3))
              (Num (-1)) (Num 0)) = Returned spans.
Proof.
  split_and!.
  - apply (encoder_terminates three_hourly (Num (-3)) NegZero (Num 0) 3);
      [reflexivity|simpl; lia].
  - apply (encoder_terminates three_hourly (Num (-3)) NegZero (Num 0) 3);
      [reflexivity|simpl; lia].
  - destruct (encoder_terminates three_hourly (Num (-3)) (Num (-1)) (Num 0) 3)
      as (_ & _ & Hret); [reflexivity|simpl; lia|].
    apply (Hret (-3) (-1) 0); [reflexivity..|simpl; lia].
Defined.

(** ** Indices read *)

Lemma encoder_negative_offset forecast numHours hoursPerSegment o :
  o < 0 →
  getConditionListFromForecast forecast numHours hoursPerSegment (Num o)
  = ([Index (Num o)], TypeError).
Proof. intros Ho. apply encoder_offset_outside. lia. Qed.

(** C10: for every forecast, [numHours >= 1], [hoursPerSegment >= 1] and
    [offset >= 0] that pass the bounds check, the encoder and the
    temperature extractor only read indices in [0, forecast.length); and
    the hypothesis on [offset] is needed: with a negative [offset] the
    bounds check can pass as well, and the encoder then reads
    [forecast[offset]], which is no element, and throws. *)
Theorem accesses_in_bounds `{Host} forecast n h o :
  1 ≤ n → 1 ≤ h → n ≤ (Z.of_nat (length forecast) - o) * h →
  (0 ≤ o →
   ∀ i, i ∈ indices (events (getConditionListFromForecast forecast (Num n)
                               (Num h) (Num o))) ∨
        i ∈ indices (events (getTemperatures forecast (Num n) (Num h) (Num o))) →
        ∃ z, i = Num z ∧ 0 ≤ z < Z.of_nat (length forecast)) ∧
  (o < 0 →
   too_many_hours_requested forecast (Num n) (Num h) (Num o) = false ∧
   Num o ∈ indices (events (getConditionListFromForecast forecast (Num n)
                              (Num h) (Num o))) ∧
   element forecast (Num o) = None ∧
   result (getConditionListFromForecast forecast (Num n) (Num h) (Num o))
   = TypeError).
Proof.
  intros Hn Hh Hcov. split.
  - intros Ho i.
    pose proof (visited_covered forecast n h o Hh Hcov) as Hv.
    pose proof (visited_positive n h Hh Hn) as Hv'.
    destruct (encoder_valid forecast n h o) as (spans & -> & _); [done..|].
    unfold getTemperatures.
    assert (0 ≤ n `div` h ≤ (n + h - 1) `div` h) as Hfloor.
    { split; [apply Z.div_pos; lia|apply Z.div_le_mono; lia]. }
    rewrite extractor_run by lia.
    unfold events. cbn [fst].
    rewrite indices_Index, indices_enc_log, indices_temp_log.
    intros [Hi|Hi].
    + unfold visited in Hv'.
      apply elem_of_cons in Hi as [->|Hi]; [exists o; split; [done|lia]|].
      apply list_elem_of_fmap in Hi as (q & -> & Hq%elem_of_seq).
      eexists. split; [done|lia].
    + apply list_elem_of_fmap in Hi as (q & -> & Hq%elem_of_seq).
      eexists. split; [done|lia].
  - intros Ho. rewrite encoder_negative_offset by done. split_and!.
    + rewrite too_many_hours_requested_Num. apply bool_decide_false. lia.
    + cbn. set_solver.
    + apply element_None_Num. lia.
    + done.
Qed.

Lemma accesses_in_bounds_witness :
  (0 ≤ 1 →
   ∀ i, i ∈ indices (events (getConditionListFromForecast hourly (Num 3)
                               (Num 1) (Num 1))) ∨
        i ∈ indices (events (@getTemperatures sample_host hourly (Num 3)
                               (Num 1) (Num 1))) →
        ∃ z, i = Num z ∧ 0 ≤ z < Z.of_nat (length hourly)) ∧
  (-1 < 0 →
   too_many_hours_requested hourly (Num 5) (Num 1) (Num (-1)) = false ∧
   Num (-1) ∈ indices (events (getConditionListFromForecast hourly (Num 5)
                                 (Num 1) (Num (-1)))) ∧
   element hourly (Num (-1)) = None ∧
   result (getConditionListFromForecast hourly (Num 5) (Num 1) (Num (-1)))
   = TypeError).
Proof.
  split.
  - apply (@accesses_in_bounds sample_host hourly 3 1 1); vm_compute; congruence.
  - apply (@accesses_in_bounds sample_host hourly 5 1 (-1)); vm_compute; congruence.
Defined.

(** ** The temperature extractor *)

(** C6, as the specification states it, fails for a negative [numHours],
    which passes the bounds check: the extractor returns the empty
    sequence, whose length is not [floor (-1 / 1) = -1]. *)
Lemma extractor_negative_numHours :
  1 ≤ 1 ∧ 0 ≤ 0 ∧
  too_many_hours_requested hourly (Num (-1)) (Num 1) (Num 0) = false ∧
  -1 ≤ (Z.of_nat (length hourly) - 0) * 1 ∧
  @getTemperatures sample_host hourly (Num (-1)) (Num 1) (Num 0)
  = ([], Returned []) ∧
  Z.of_nat (length (@nil HourTemperature)) ≠ -1 `div` 1.
Proof. by vm_compute. Qed.

(** C6 (amended): for every forecast, [hoursPerSegment >= 1],
    [offset >= 0] and [numHours >= 0] within coverage, the extractor returns
    exactly [floor (numHours / hoursPerSegment)] entries, the [k]-th of them
    made of the forecast entry at index [offset + k]. *)
Theorem extractor_length `{Host} forecast n h o :
  1 ≤ h → 0 ≤ o → 0 ≤ n → n ≤ (Z.of_nat (length forecast) - o) * h →
  ∃ temperatures,
    result (getTemperatures forecast (Num n) (Num h) (Num o))
    = Returned temperatures ∧
    Z.of_nat (length temperatures) = n `div` h ∧
    ∀ k, 0 ≤ k < n `div` h →
      ∃ fs, forecast !! Z.to_nat (o + k) = Some fs ∧
            temperatures !! Z.to_nat k = Some (hourTemperature fs).
Proof.
  intros Hh Ho Hn Hcov.
  assert (0 ≤ n `div` h ≤ Z.of_nat (length forecast) - o) as Hfloor.
  { split; [apply Z.div_pos; lia|].
    apply Z.div_le_upper_bound; lia. }
  unfold getTemperatures. rewrite extractor_run by lia.
  eexists. split; [done|]. split.
  - rewrite length_fmap, length_take, length_drop. lia.
  - intros k Hk.
    destruct (lookup_lt_is_Some_2 forecast (Z.to_nat (o + k))) as [fs Hfs];
      [lia|].
    exists fs. split; [done|].
    rewrite list_lookup_fmap, lookup_take_lt, lookup_drop by lia.
    replace (Z.to_nat o + Z.to_nat k)%nat with (Z.to_nat (o + k)) by lia.
    by rewrite Hfs.
Qed.

Lemma extractor_length_witness :
  ∃ temperatures,
    result (@getTemperatures sample_host hourly (Num 3) (Num 2) (Num 1))
    = Returned temperatures ∧
    Z.of_nat (length temperatures) = 3 `div` 2 ∧
    ∀ k, 0 ≤ k < 3 `div` 2 →
      ∃ fs, hourly !! Z.to_nat (1 + k) = Some fs ∧
            temperatures !! Z.to_nat k = Some (@hourTemperature sample_host fs).
Proof.
  apply (@extractor_length sample_host hourly 3 2 1); vm_compute; congruence.
Defined.

(** ** The segment resolution detector *)

(** C7: the detector returns 1 for every forecast with fewer than 2
    entries; for a forecast with at least 2 entries it returns the integer
    nearest to the hours elapsed between the first two entries (the upper
    one of two nearest integers); hence [N] for every forecast with at least
    2 entries that are uniformly [N] hours apart. *)
Theorem determineHoursPerSegment_spec forecast :
  ((length forecast < 2)%nat → determineHoursPerSegment forecast = Num 1) ∧
  (∀ fs1 fs2, forecast !! 0%nat = Some fs1 → forecast !! 1%nat = Some fs2 →
     ∃ r, finite (determineHoursPerSegment forecast) = Some r ∧
          let delta := datetime fs2 - datetime fs1 in
          2 * 3600000 * r - 3600000 ≤ 2 * delta < 2 * 3600000 * r + 3600000) ∧
  (∀ N, (2 ≤ length forecast)%nat → uniform_spacing N forecast →
     determineHoursPerSegment forecast = Num N).
Proof.
  split_and!.
  - by destruct forecast as [|fs1 [|fs2 rest]]; simpl; [..|lia].
  - intros fs1 fs2 H1 H2.
    destruct forecast as [|? [|? rest]]; simplify_eq/=.
    unfold Math_round_div. rewrite finite_of_Z. eexists. split; [done|].
    cbv zeta.
    pose proof (Z.mul_div_le (2 * (datetime fs2 - datetime fs1) + 1000 * 3600)
                  (2 * (1000 * 3600)) ltac:(lia)).
    pose proof (Z.mul_succ_div_gt
                  (2 * (datetime fs2 - datetime fs1) + 1000 * 3600)
                  (2 * (1000 * 3600)) ltac:(lia)).
    lia.
  - intros N Hlen Hu.
    destruct forecast as [|fs1 [|fs2 rest]]; simpl in Hlen; [lia..|].
    cbn [determineHoursPerSegment]. rewrite (Hu 0%nat fs1 fs2) by done.
    unfold Math_round_div.
    replace (2 * (N * 3600000) + 1000 * 3600)
      with (N * (2 * (1000 * 3600)) + 1000 * 3600) by lia.
    rewrite Z.div_add_l, Z.div_small, Z.add_0_r by lia.
    unfold of_Z, zero. destruct (Z.eqb_spec N 0) as [->|]; [|done].
    done.
Qed.

Lemma determineHoursPerSegment_spec_witness :
  determineHoursPerSegment [] = Num 1 ∧
  (∃ r, finite (determineHoursPerSegment three_hourly) = Some r ∧
        2 * 3600000 * r - 3600000 ≤ 2 * (3 * 3600000 - 0 * 3600000)
                                  < 2 * 3600000 * r + 3600000) ∧
  determineHoursPerSegment three_hourly = Num 3.
Proof.
  split_and!.
  - destruct (determineHoursPerSegment_spec []) as (H1 & _ & _).
    apply H1. simpl. lia.
  - destruct (determineHoursPerSegment_spec three_hourly) as (_ & H2 & _).
    apply (H2 (segment "sunny" 0) (segment "cloudy" 3)); reflexivity.
  - destruct (determineHoursPerSegment_spec three_hourly) as (_ & _ & H3).
    apply H3; [simpl; lia|].
    intros [|[|i]] fs fs' Hfs Hfs'; simplify_eq/=. reflexivity.
Defined.

(** ** The daily-forecast classifier *)

Lemma size_list_to_set_le (l : list Z) :
  (size (list_to_set l : gset Z) ≤ length l)%nat.
Proof.
  induction l as [|x l IH]; cbn [list_to_set length].
  - by rewrite size_empty.
  - rewrite size_union_alt, size_singleton.
    assert (list_to_set l ∖ {[x]} ⊆ (list_to_set l : gset Z)) as Hsub.
    { intros y. rewrite elem_of_difference. tauto. }
    apply subseteq_size in Hsub. lia.
Qed.

(** C3, as the specification states it, fails: the classifier compares days
    of the month, not calendar days.  Three entries a month apart fall on
    three distinct calendar days, which is at least [3 - 1], and the forecast
    is not classified daily. *)
Lemma classifier_not_calendar_days :
  NoDup ((λ f, @calendarDay sample_host (datetime f)) <$> monthly) ∧
  Z.of_nat (length monthly) - 1
  ≤ Z.of_nat (length ((λ f, @calendarDay sample_host (datetime f)) <$> monthly)) ∧
  @dates sample_host monthly = [5; 5; 5] ∧
  @isForecastDaily sample_host monthly = false.
Proof.
  split_and!; [|by vm_compute..].
  apply (bool_decide_unpack _). by vm_compute.
Qed.

(** C3 (amended): for every forecast, the classifier returns true if and
    only if the number of distinct day-of-the-month values ([getDate], 1 to
    31 in local time) of its entries is at least [forecast.length - 1]; in
    particular a forecast whose entries fall on pairwise distinct days of the
    month is classified daily, and one with three entries on the same day of
    the month is not. *)
Theorem isForecastDaily_spec `{Host} forecast :
  (∀ days : list Z,
     NoDup days → (∀ d, d ∈ days ↔ d ∈ dates forecast) →
     (isForecastDaily forecast = true
      ↔ Z.of_nat (length forecast) - 1 ≤ Z.of_nat (length days))) ∧
  (NoDup (dates forecast) → isForecastDaily forecast = true) ∧
  (∀ l1 a l2 b l3 c l4,
     forecast = l1 ++ a :: l2 ++ b :: l3 ++ c :: l4 →
     getDate (datetime a) = getDate (datetime b) →
     getDate (datetime b) = getDate (datetime c) →
     isForecastDaily forecast = false).
Proof.
  unfold isForecastDaily. fold (dates forecast). split_and!.
  - intros days Hnd Hdays.
    assert (list_to_set (dates forecast) = (list_to_set days : gset Z)) as ->.
    { apply set_eq. intros d. rewrite !elem_of_list_to_set. by rewrite Hdays. }
    rewrite size_list_to_set by done. rewrite bool_decide_eq_true. lia.
  - intros Hnd. apply bool_decide_eq_true.
    rewrite size_list_to_set by done. unfold dates. rewrite length_fmap. lia.
  - intros l1 a l2 b l3 c l4 -> Hab Hbc. apply bool_decide_eq_false.
    assert (list_to_set (dates (l1 ++ a :: l2 ++ b :: l3 ++ c :: l4))
            = (list_to_set (dates (l1 ++ a :: l2 ++ l3 ++ l4)) : gset Z)) as ->.
    { unfold dates. repeat rewrite ?fmap_app, ?fmap_cons.
      rewrite <- Hbc, <- Hab. apply set_eq. intros d.
      repeat rewrite ?elem_of_list_to_set, ?elem_of_app, ?elem_of_cons.
      tauto. }
    pose proof (size_list_to_set_le (dates (l1 ++ a :: l2 ++ l3 ++ l4))) as Hle.
    unfold dates in Hle. rewrite length_fmap in Hle.
    repeat (rewrite length_app in Hle || rewrite length_cons in Hle).
    repeat (rewrite length_app || rewrite length_cons).
    unfold dates. lia.
Qed.

Lemma isForecastDaily_spec_witness :
  (@isForecastDaily sample_host monthly = true
   ↔ Z.of_nat (length monthly) - 1 ≤ Z.of_nat (length [5])) ∧
  @isForecastDaily sample_host daily = true ∧
  @isForecastDaily sample_host monthly = false.
Proof.
  destruct (@isForecastDaily_spec sample_host monthly) as (Hiff & _ & Hthree).
  destruct (@isForecastDaily_spec sample_host daily) as (_ & Hdistinct & _).
  split_and!.
  - apply Hiff; [apply NoDup_singleton|].
    intros d. change (dates monthly) with [5; 5; 5].
    rewrite !elem_of_cons. tauto.
  - apply Hdistinct. apply (bool_decide_unpack _). by vm_compute.
  - apply (Hthree [] (segment "sunny" (18997 * 24 + 12))
                  [] (segment "sunny" (19028 * 24 + 12))
                  [] (segment "sunny" (19056 * 24 + 12)) []); reflexivity.
Defined.

(** ** The color configuration validator *)

Lemma isValidColor_accepted `{Host} k v : isValidColor k v = accepted (k, v).
Proof.
  unfold isValidColor, accepted. cbn [fst snd].
  destruct (in_ICONS k); [|done].
  by destruct (isValidRGB v || isValidColorName v || isValidHSL v).
Qed.

Lemma color_fold `{Host} (entries : ColorConfig) :
  ∀ acc : gmap string string * list string,
    NoDup entries.*1 → (∀ k, k ∈ entries.*1 → acc.1 !! k = None) →
    (foldl color_step acc entries).2
    = acc.2 ++ (warning_text <$> filter (λ e, ¬ accepted e) entries) ∧
    (∀ k v, (foldl color_step acc entries).1 !! k = Some v
            ↔ acc.1 !! k = Some v ∨ ((k, v) ∈ entries ∧ accepted (k, v))) ∧
    size (foldl color_step acc entries).1
    = (size acc.1 + length (filter (λ e, Is_true (accepted e)) entries))%nat.
Proof.
  induction entries as [|[k0 v0] entries IH]; intros acc Hnd Hfresh.
  { cbn. rewrite app_nil_r. split_and!; [done| |lia].
    intros k v. rewrite elem_of_nil. tauto. }
  rewrite fmap_cons in Hnd, Hfresh. cbn [fst] in Hnd, Hfresh.
  apply NoDup_cons in Hnd as [Hk0 Hnd].
  pose proof (Hfresh k0 ltac:(left)) as Hnone.
  cbn [foldl]. unfold color_step at 2 4 6.
  rewrite isValidColor_accepted. destruct (accepted (k0, v0)) eqn:Hacc.
  - destruct (IH (<[k0:=v0]> acc.1, acc.2)) as (Hw & Hv & Hs); [done| |].
    { intros k Hk. cbn. rewrite lookup_insert_ne by congruence.
      apply Hfresh. by right. }
    cbn [fst snd] in *. split_and!.
    + rewrite Hw, filter_cons_False; [done|]. rewrite Hacc. by intros [].
    + intros k v. rewrite Hv, elem_of_cons. destruct (decide (k = k0)) as [->|].
      * rewrite lookup_insert_eq, Hnone. split.
        -- intros [[= <-]|[Hin ?]].
           ++ right. split; [by left|]. by rewrite Hacc.
           ++ destruct Hk0. apply list_elem_of_fmap. by exists (k0, v).
        -- intros [?|[[[= ->]|Hin] ?]]; [done|by left|].
           destruct Hk0. apply list_elem_of_fmap. by exists (k0, v).
      * rewrite lookup_insert_ne by done. split.
        -- intros [?|[? ?]]; [by left|right; split; [by right|done]].
        -- intros [?|[[[= -> ->]|?] ?]]; [by left|done|by right].
    + rewrite Hs, map_size_insert_None by done.
      rewrite filter_cons_True by (by rewrite Hacc). simpl. lia.
  - change (k0 +:+ ": " +:+ v0) with (warning_text (k0, v0)).
    destruct (IH (acc.1, acc.2 ++ [warning_text (k0, v0)])) as (Hw & Hv & Hs);
      [done| |].
    { intros k Hk. cbn. apply Hfresh. by right. }
    cbn [fst snd] in *. split_and!.
    + rewrite Hw, filter_cons_True by (rewrite Hacc; by intros []).
      by rewrite fmap_cons, <- (assoc_L (++)).
    + intros k v. rewrite Hv, elem_of_cons. split.
      * intros [?|[? ?]]; [by left|right; split; [by right|done]].
      * intros [?|[[[= -> ->]|?] Ha]]; [by left| |by right].
        rewrite Hacc in Ha. by destruct Ha.
    + rewrite Hs, filter_cons_False; [done|]. rewrite Hacc. by intros [].
Qed.

(** C8: for an absent color configuration the validator returns
    [{ validColors: undefined, warnings: [] }]; for a present one, an entry
    is in [validColors] exactly when its key is a recognized condition and
    its color parses as an RGB or hex, named or HSL color, the warnings are
    the other entries as ["key: value"] in input order, and the two
    outputs together hold as many entries as the configuration. *)
Theorem getColorSettings_spec `{Host} :
  getColorSettings None = {| validColors := None; warnings := [] |} ∧
  ∀ entries : ColorConfig, NoDup entries.*1 →
    ∃ valid,
      getColorSettings (Some entries)
      = {| validColors := Some valid;
           warnings := warning_text <$> filter (λ e, ¬ accepted e) entries |} ∧
      (∀ k v, (k, v) ∈ entries →
         (valid !! k = Some v ↔ in_ICONS k = true ∧
            (isValidRGB v = true ∨ isValidColorName v = true ∨
             isValidHSL v = true))) ∧
      (∀ k v, valid !! k = Some v → (k, v) ∈ entries) ∧
      (size valid + length (filter (λ e, ¬ accepted e) entries)
       = length entries)%nat.
Proof.
  split; [done|]. intros entries Hnd.
  destruct (color_fold entries (∅, []) Hnd) as (Hw & Hv & Hs); [done|].
  cbn [fst snd] in *. exists (foldl color_step (∅, []) entries).1.
  unfold getColorSettings. rewrite Hw. split_and!.
  - done.
  - intros k v Hin. rewrite Hv, lookup_empty. unfold accepted. cbn [fst snd].
    rewrite <- Is_true_true, andb_True, !orb_True, !Is_true_true.
    split; [intros [?|[_ ?]]; [done|tauto]|].
    intros ?. right. split; [done|tauto].
  - intros k v. rewrite Hv, lookup_empty. by intros [?|[? _]].
  - rewrite Hs, map_size_empty.
    pose proof (filter_app_complement (λ e, Is_true (accepted e)) entries)
      as Hperm%Permutation_length.
    rewrite length_app in Hperm. cbn. lia.
Qed.

Lemma getColorSettings_spec_witness :
  ∃ valid,
    @getColorSettings sample_host
      (Some [("sunny", "red"); ("sunny-ish", "red"); ("cloudy", "not-a-color")])
    = {| validColors := Some valid;
         warnings := ["sunny-ish: red"; "cloudy: not-a-color"] |} ∧
    valid !! "sunny" = Some "red".
Proof.
  destruct (@getColorSettings_spec sample_host) as [_ Hpresent].
  destruct (Hpresent
              [("sunny", "red"); ("sunny-ish", "red"); ("cloudy", "not-a-color")])
    as (valid & Hrun & Hiff & _).
  { apply (bool_decide_unpack _). by vm_compute. }
  exists valid. split.
  - exact Hrun.
  - apply Hiff; [by left|]. split; [reflexivity|]. right. left. reflexivity.
Defined.

(** ** Rendering *)

Lemma events_bind {A B} (m : M A) (f : A → M B) e :
  e ∈ m.1 → e ∈ (m ≫= f).1.
Proof.
  destruct m as [log [a| |]]; [|done..].
  rewrite bind_Returned. cbn [fst]. rewrite elem_of_app. by left.
Qed.

Lemma call_unfold {A} m (c : M A) : call m c = (Invoke m :: events c, result c).
Proof. unfold call, tell. rewrite bind_Returned. by destruct c. Qed.

Lemma call_ret {A} m (a : A) : call m (ret a) = ([Invoke m], Returned a).
Proof. by rewrite call_unfold. Qed.

(** When the bounds check passes, [render] goes on to invoke the encoder. *)
Lemma render_within_coverage `{Host} forecast config :
  too_many_hours_requested forecast
    (parseInt (default "12" (num_hours config)))
    (determineHoursPerSegment forecast)
    (parseInt (default "0" (offset config))) = false →
  invoked getConditionListFromForecast_m (events (render forecast config)).
Proof.
  intros Hcheck. unfold render, too_many_hours_requested in *.
  rewrite !call_ret, bind_Returned. cbn [fst snd app]. rewrite Hcheck.
  rewrite bind_Returned. unfold invoked, events. cbn [fst snd app].
  do 2 apply list_elem_of_further. apply events_bind.
  rewrite call_unfold. cbn [fst]. apply list_elem_of_here.
Qed.

(** The whole of [render] when the bounds check fails. *)
Lemma render_rejects `{Host} forecast config :
  too_many_hours_requested forecast
    (parseInt (default "12" (num_hours config)))
    (determineHoursPerSegment forecast)
    (parseInt (default "0" (offset config))) = true →
  render forecast config
  = ([Invoke determineHoursPerSegment_m],
     Returned (error_card (localize "errors.too_many_hours_requested"))).
Proof.
  intros Hcheck. unfold render, too_many_hours_requested in *.
  rewrite !call_ret, bind_Returned. cbn [fst snd app]. by rewrite Hcheck.
Qed.

(** The same in integers: [numHours] and [offset] as parsed, and the
    resolution the detector found. *)
Lemma render_rejects_integers `{Host} forecast config n h o :
  parseInt (default "12" (num_hours config)) = Num n →
  parseInt (default "0" (offset config)) = Num o →
  finite (determineHoursPerSegment forecast) = Some h →
  n > (Z.of_nat (length forecast) - o) * h →
  result (render forecast config)
  = Returned (error_card (localize "errors.too_many_hours_requested")).
Proof.
  intros Hn Ho Hh Hgt. rewrite render_rejects; [done|].
  rewrite (too_many_hours_requested_finite _ _ _ _ n h o);
    [|by rewrite Hn|done|by rewrite Ho].
  apply bool_decide_true. lia.
Qed.

(** C4: for every forecast and configuration, if [numHours] exceeds
    [(forecast.length - offset) * hoursPerSegment], [render] returns the
    error card of the request error; neither the encoder nor the
    temperature extractor is invoked, and no entry of the forecast is read:
    the only method called is the resolution detector. *)
Theorem render_too_many_hours `{Host} forecast config :
  too_many_hours_requested forecast
    (parseInt (default "12" (num_hours config)))
    (determineHoursPerSegment forecast)
    (parseInt (default "0" (offset config))) = true →
  result (render forecast config)
  = Returned (error_card (localize "errors.too_many_hours_requested")) ∧
  ¬ invoked getConditionListFromForecast_m (events (render forecast config)) ∧
  ¬ invoked getTemperatures_m (events (render forecast config)) ∧
  indices (events (render forecast config)) = [] ∧
  events (render forecast config) = [Invoke determineHoursPerSegment_m].
Proof.
  intros Hcheck. rewrite render_rejects by done.
  unfold invoked, events, result. cbn [fst snd].
  split_and!; [done| | |done..]; rewrite elem_of_cons, elem_of_nil;
    by intros [?|[]].
Qed.

Lemma render_too_many_hours_witness :
  result (@render sample_host hourly
            {| num_hours := None; offset := Some "1"; colors := None |})
  = Returned (error_card "errors.too_many_hours_requested") ∧
  ¬ invoked getConditionListFromForecast_m
      (events (@render sample_host hourly
                 {| num_hours := None; offset := Some "1"; colors := None |})) ∧
  ¬ invoked getTemperatures_m
      (events (@render sample_host hourly
                 {| num_hours := None; offset := Some "1"; colors := None |})) ∧
  indices (events (@render sample_host hourly
                     {| num_hours := None; offset := Some "1";
                        colors := None |})) = [] ∧
  events (@render sample_host hourly
            {| num_hours := None; offset := Some "1"; colors := None |})
  = [Invoke determineHoursPerSegment_m].
Proof.
  apply (@render_too_many_hours sample_host hourly
           {| num_hours := None; offset := Some "1"; colors := None |}).
  reflexivity.
Defined.

(** ** The example of the specification *)

Example render_day_forecast :
  ∃ temperatures,
    result (@render sample_host day_forecast
              {| num_hours := Some "12"; offset := Some "0"; colors := None |})
    = Returned (ha_card [] [("sunny", 6); ("cloudy", 3); ("rainy", 3)]
                  temperatures None) ∧
    length temperatures = 12%nat ∧
    temperatures !! 0%nat = Some {| hour := "12 AM"; temperature_label := "20" |}.
Proof. eexists. by vm_compute. Qed.

(** * Further properties of the card *)

(** ** The encoder on arbitrary arguments *)

Lemma number_add_1 x z : finite x = Some z → number_add x (Num 1) = Num (z + 1).
Proof. destruct x; intros; simplify_eq/=; done. Qed.

Lemma element_finite {A} (l : list A) i z :
  finite i = Some z → 0 ≤ z → element l i = l !! Z.to_nat z.
Proof.
  intros Hi Hz. unfold element. rewrite Hi.
  by rewrite (proj2 (Z.ltb_ge _ _)).
Qed.

Lemma enc_body_outside forecast st z :
  enc_i st = Num z → ¬ (0 ≤ z < Z.of_nat (length forecast)) →
  enc_body forecast st = ([Index (Num z)], TypeError).
Proof.
  intros Hi Hz. unfold enc_body.
  by rewrite Hi, index_None by (by apply element_None_Num).
Qed.

(** The loop of the encoder, whatever its condition: it stops with the
    invariant after some [m] further entries, or throws on reading the index
    after the last entry. *)
Lemma enc_loop_any forecast o cond fuel : ∀ k st,
  0 ≤ o → enc_inv forecast o k st →
  o + Z.of_nat k < Z.of_nat (length forecast) →
  match for_loop fuel cond (enc_body forecast) st with
  | (log, Returned st') =>
      ∃ m, enc_inv forecast o (k + m) st' ∧
           o + Z.of_nat (k + m) < Z.of_nat (length forecast) ∧
           log = enc_log o k m
  | (log, TypeError) =>
      ∃ m, log = enc_log o k m
                 ++ [Iteration; Index (Num (Z.of_nat (length forecast)))] ∧
           o + Z.of_nat (k + m) + 1 = Z.of_nat (length forecast)
  | (log, OutOfFuel) => True
  end.
Proof.
  induction fuel as [|fuel IH]; intros k st Ho Hinv Hk; [done|].
  destruct (cond st) eqn:Hc.
  - destruct (decide (o + Z.of_nat k + 1 < Z.of_nat (length forecast)))
      as [Hnext|Hlast].
    + destruct (lookup_lt_is_Some_2 forecast (Z.to_nat o + S k)) as [fs Hfs];
        [lia|].
      destruct (enc_body_inv forecast o Ho k st fs Hinv Hfs)
        as (st' & Hbody & Hinv').
      rewrite (for_loop_step _ _ _ _ _ _ Hc Hbody).
      specialize (IH (S k) st' Ho Hinv' ltac:(lia)).
      destruct (for_loop fuel cond (enc_body forecast) st')
        as [log [st''| |]]; cbn [events result fst snd]; [| |done].
      * destruct IH as (m & ? & ? & ->). exists (S m).
        replace (k + S m)%nat with (S k + m)%nat by lia. done.
      * destruct IH as (m & -> & ?). exists (S m).
        split; [done|]. lia.
    + rewrite (for_loop_throw _ _ _ _ [Index (Num (o + Z.of_nat k + 1))]);
        [|done|apply enc_body_outside; [apply Hinv|lia]].
      exists 0%nat. rewrite Nat.add_0_r. split; [|lia].
      cbn. do 4 f_equal. lia.
  - rewrite for_loop_done by done. exists 0%nat.
    rewrite Nat.add_0_r. done.
Qed.

Lemma enc_inv_initial forecast o fs :
  forecast !! Z.to_nat o = Some fs →
  enc_inv forecast o 0
    {| enc_i := Num (o + 1); enc_j := 0; enc_lastCond := condition fs;
       enc_res := [(condition fs, 1)] |}.
Proof.
  intros Hfs. unfold enc_inv. cbn. split_and!.
  - f_equal. lia.
  - by exists [], 1.
  - erewrite take_S_r by (by rewrite lookup_drop, Nat.add_0_r). done.
  - by apply Forall_singleton.
  - apply adjacent_distinct_singleton.
Qed.

(** Every run of the encoder: it throws at once when [offset] is no index;
    otherwise it visits the entries from [offset] on and returns once its
    condition fails, or throws on reading past the last entry. *)
Lemma encoder_any forecast numHours hoursPerSegment offset :
  match getConditionListFromForecast forecast numHours hoursPerSegment offset
  with
  | (log, Returned spans) =>
      ∃ o m, finite offset = Some o ∧ 0 ≤ o ∧
        o + Z.of_nat m < Z.of_nat (length forecast) ∧
        log = Index offset :: enc_log o 0 m ∧
        expand spans
        = condition <$> take (S m) (drop (Z.to_nat o) forecast) ∧
        Forall (λ sp : ConditionSpan, 1 ≤ sp.2) spans ∧
        adjacent_distinct spans.*1
  | (log, TypeError) =>
      (element forecast offset = None ∧ log = [Index offset]) ∨
      ∃ o m, finite offset = Some o ∧ 0 ≤ o ∧
        o + Z.of_nat m + 1 = Z.of_nat (length forecast) ∧
        log = Index offset :: enc_log o 0 m
              ++ [Iteration; Index (Num (Z.of_nat (length forecast)))]
  | (log, OutOfFuel) => False
  end.
Proof.
  pose proof (getConditionListFromForecast_fuel_total (S (length forecast))
                forecast numHours hoursPerSegment offset ltac:(lia)) as Htot.
  unfold getConditionListFromForecast in *.
  unfold getConditionListFromForecast_fuel in *.
  destruct (element forecast offset) as [fs|] eqn:E.
  - pose proof E as (o & Hfin & Ho)%element_Some.
    rewrite (element_finite _ _ o) in E by (done || lia).
    rewrite (index_Some _ _ fs) in * by
      (by rewrite (element_finite _ _ o) by (done || lia)).
    rewrite bind_Returned in *. cbn [fst snd] in *.
    rewrite (number_add_1 _ o) in * by done.
    pose proof (enc_loop_any forecast o
                  (enc_cond numHours hoursPerSegment offset)
                  (S (length forecast)) 0 _ (proj1 Ho)
                  (enc_inv_initial forecast o fs E) ltac:(lia)) as Hloop.
    destruct (for_loop _ _ _ _) as [log [st| |]].
    + destruct Hloop as (m & (_ & _ & Hexp & Hpos & Hadj) & Hm & ->).
      rewrite bind_Returned. cbn. rewrite app_nil_r.
      exists o, m. split_and!; try done; lia.
    + destruct Hloop as (m & -> & Hm). right. exists o, m.
      split_and!; try done; lia.
    + by destruct Htot.
  - rewrite (index_None _ _ E). left. done.
Qed.

Lemma iterations_enc_log o k m : iterations (enc_log o k m) = m.
Proof.
  unfold enc_log. revert k. induction m as [|m IH]; intros k; [done|].
  cbn [seq]. rewrite bind_cons, iterations_app, IH. done.
Qed.

Lemma iterations_temp_log o k m : iterations (temp_log o k m) = m.
Proof.
  unfold temp_log. revert k. induction m as [|m IH]; intros k; [done|].
  cbn [seq]. rewrite bind_cons, iterations_app, IH. done.
Qed.

Lemma length_expand spans :
  Forall (λ sp : ConditionSpan, 1 ≤ sp.2) spans →
  Z.of_nat (length (expand spans)) = total_runLength spans.
Proof. intros. by rewrite total_runLength_expand. Qed.

(** X1: whatever its arguments, the encoder ends.  When it returns, the
    spans are not empty, every run length is at least 1, neighbours differ,
    the spans spell out the conditions of consecutive entries from [offset]
    on, one entry per loop iteration beside the first, and every index that
    was read is an element of the forecast.  When it throws, the last index
    read is no element: [res[j]] is never the cause. *)
Theorem encoder_always_wellformed forecast numHours hoursPerSegment offset :
  let run :=
    getConditionListFromForecast forecast numHours hoursPerSegment offset in
  match result run with
  | Returned spans =>
      spans ≠ [] ∧
      Forall (λ sp : ConditionSpan, 1 ≤ sp.2) spans ∧
      adjacent_distinct spans.*1 ∧
      total_runLength spans = 1 + Z.of_nat (iterations (events run)) ∧
      (∃ o, finite offset = Some o ∧ 0 ≤ o ∧
            o + total_runLength spans ≤ Z.of_nat (length forecast) ∧
            expand spans
            = condition <$> take (Z.to_nat (total_runLength spans))
                              (drop (Z.to_nat o) forecast)) ∧
      (∀ i, i ∈ indices (events run) → is_Some (element forecast i))
  | TypeError =>
      ∃ i, last (indices (events run)) = Some i ∧ element forecast i = None
  | OutOfFuel => False
  end.
Proof.
  intros run. pose proof (encoder_any forecast numHours hoursPerSegment offset)
    as Hrun. fold run in Hrun.
  destruct run as [log [spans| |]]; cbn [result events fst snd]; [| |done].
  - destruct Hrun as (o & m & Hfin & Ho & Hm & -> & Hexp & Hpos & Hadj).
    assert (total_runLength spans = 1 + Z.of_nat m) as Hsum.
    { rewrite total_runLength_expand, Hexp by done.
      rewrite length_fmap, length_take, length_drop. lia. }
    split_and!; try done.
    + intros ->. cbn in Hsum. lia.
    + by rewrite iterations_Index, iterations_enc_log.
    + exists o. split_and!; [done..|lia|].
      rewrite Hexp. do 2 f_equal. lia.
    + intros i. rewrite indices_Index, indices_enc_log, elem_of_cons.
      intros [->|(q & -> & Hq%elem_of_seq)%list_elem_of_fmap].
      * rewrite (element_finite _ _ o) by done.
        apply lookup_lt_is_Some_2. lia.
      * rewrite element_Num by lia. apply lookup_lt_is_Some_2. lia.
  - destruct Hrun as [[Hnone ->]|(o & m & Hfin & Ho & Hm & ->)].
    + by exists offset.
    + exists (Num (Z.of_nat (length forecast))).
      split; [|apply element_None_Num; lia].
      rewrite indices_Index, indices_app, indices_enc_log.
      change (indices [Iteration; Index (Num (Z.of_nat (length forecast)))])
        with [Num (Z.of_nat (length forecast))].
      by rewrite app_comm_cons, last_snoc.
Qed.

(** ** The extractor on arbitrary arguments *)

Lemma indices_Iteration l : indices (Iteration :: l) = indices l.
Proof. done. Qed.

Lemma temp_body_inside `{Host} forecast st fs :
  element forecast (temp_i st) = Some fs →
  temp_body forecast st
  = ([Index (temp_i st)],
     Returned {| temp_i := number_add (temp_i st) (Num 1);
                 temp_temperatures :=
                   temp_temperatures st ++ [hourTemperature fs] |}).
Proof. intros E. unfold temp_body. by rewrite (index_Some _ _ fs). Qed.

Lemma temp_body_outside `{Host} forecast st :
  element forecast (temp_i st) = None →
  temp_body forecast st = ([Index (temp_i st)], TypeError).
Proof. intros E. unfold temp_body. by rewrite index_None. Qed.

(** The loop of the extractor, whatever its condition. *)
Lemma temp_loop_any `{Host} forecast o cond fuel : ∀ k st,
  0 ≤ o → temp_inv forecast o k st →
  o + Z.of_nat k ≤ Z.of_nat (length forecast) →
  match for_loop fuel cond (temp_body forecast) st with
  | (log, Returned st') =>
      ∃ m, temp_inv forecast o (k + m) st' ∧
           o + Z.of_nat (k + m) ≤ Z.of_nat (length forecast) ∧
           log = temp_log o k m
  | (log, TypeError) =>
      ∃ m, log = temp_log o k m
                 ++ [Iteration; Index (Num (Z.of_nat (length forecast)))] ∧
           o + Z.of_nat (k + m) = Z.of_nat (length forecast)
  | (log, OutOfFuel) => True
  end.
Proof.
  induction fuel as [|fuel IH]; intros k st Ho [Hi Ht] Hk; [done|].
  destruct (cond st) eqn:Hc.
  - destruct (decide (o + Z.of_nat k < Z.of_nat (length forecast)))
      as [Hnext|Hlast].
    + destruct (lookup_lt_is_Some_2 forecast (Z.to_nat o + k)) as [fs Hfs];
        [lia|].
      assert (element forecast (temp_i st) = Some fs) as E.
      { rewrite Hi, element_Num by lia. rewrite <- Hfs. f_equal. lia. }
      rewrite (for_loop_step _ _ _ _ _ _ Hc (temp_body_inside _ _ _ E)).
      match goal with |- context [for_loop fuel cond _ ?s] => set (st' := s) end.
      assert (temp_inv forecast o (S k) st') as Hinv'.
      { split; cbn; [rewrite Hi; cbn; f_equal; lia|].
        erewrite take_S_r by (by rewrite lookup_drop).
        by rewrite fmap_app, Ht. }
      specialize (IH (S k) st' Ho Hinv' ltac:(lia)).
      destruct (for_loop fuel cond (temp_body forecast) st')
        as [log [st''| |]]; cbn [events result fst snd]; [| |done].
      * destruct IH as (m & ? & ? & ->). exists (S m).
        replace (k + S m)%nat with (S k + m)%nat by lia.
        split_and!; [done..|]. cbn. by rewrite Hi.
      * destruct IH as (m & -> & ?). exists (S m).
        split; [cbn; by rewrite Hi|]. lia.
    + rewrite (for_loop_throw _ _ _ _ [Index (temp_i st)]);
        [|done|apply temp_body_outside; rewrite Hi;
               apply element_None_Num; lia].
      exists 0%nat. rewrite Nat.add_0_r. split; [|lia].
      rewrite Hi. cbn. do 4 f_equal. lia.
  - rewrite for_loop_done by done. exists 0%nat.
    rewrite Nat.add_0_r. done.
Qed.

(** Every run of the extractor: it returns nothing when its condition
    fails at once, throws when [offset] is no index, and otherwise visits
    the entries from [offset] on until its condition fails or it reads past
    the last entry. *)
Lemma extractor_any `{Host} forecast numHours hoursPerSegment offset :
  match getTemperatures forecast numHours hoursPerSegment offset with
  | (log, Returned temperatures) =>
      (temperatures = [] ∧ log = []) ∨
      ∃ o m, finite offset = Some o ∧ 0 ≤ o ∧
        o + Z.of_nat (S m) ≤ Z.of_nat (length forecast) ∧
        log = Iteration :: Index offset :: temp_log o 1 m ∧
        temperatures
        = hourTemperature <$> take (S m) (drop (Z.to_nat o) forecast)
  | (log, TypeError) =>
      (element forecast offset = None ∧ log = [Iteration; Index offset]) ∨
      ∃ o m, finite offset = Some o ∧ 0 ≤ o ∧
        o + Z.of_nat (S m) = Z.of_nat (length forecast) ∧
        log = Iteration :: Index offset :: temp_log o 1 m
              ++ [Iteration; Index (Num (Z.of_nat (length forecast)))]
  | (log, OutOfFuel) => False
  end.
Proof.
  unfold getTemperatures, getTemperatures_fuel.
  set (cond := temp_cond numHours hoursPerSegment offset).
  set (st0 := {| temp_i := offset; temp_temperatures := [] |}).
  destruct (cond st0) eqn:Hc;
    [|rewrite for_loop_done by done; unfold ret; rewrite bind_Returned;
      by left].
  destruct (element forecast offset) as [fs|] eqn:E.
  - pose proof E as (o & Hfin & Ho)%element_Some.
    rewrite (element_finite _ _ o) in E by (done || lia).
    assert (element forecast (temp_i st0) = Some fs) as E0
      by (by cbn; rewrite (element_finite _ _ o) by (done || lia)).
    rewrite (for_loop_step _ _ _ _ _ _ Hc (temp_body_inside _ _ _ E0)).
    cbn [temp_i temp_temperatures st0 app].
    rewrite (number_add_1 _ o) by done.
    match goal with |- context [for_loop _ cond _ ?s] => set (st1 := s) end.
    assert (temp_inv forecast o 1 st1) as Hinv.
    { split; cbn; [done|].
      erewrite take_S_r by (by rewrite lookup_drop, Nat.add_0_r). done. }
    pose proof (temp_loop_any forecast o cond (length forecast) 1 st1
                  (proj1 Ho) Hinv ltac:(lia)) as Hloop.
    pose proof (for_loop_total cond (temp_body forecast)
                  (λ st, remaining forecast (temp_i st))
                  (temp_body_decreases forecast) (length forecast) st1) as Htot.
    destruct (for_loop (length forecast) cond (temp_body forecast) st1)
      as [log [st| |]]; cbn [events result fst snd] in *.
    + destruct Hloop as (m & [_ Ht] & Hm & ->).
      rewrite bind_Returned. cbn. rewrite app_nil_r. right.
      exists o, m. rewrite Ht. split_and!; try done; lia.
    + destruct Hloop as (m & -> & Hm). right. exists o, m.
      split_and!; try done; lia.
    + destruct Htot; [|done]. unfold remaining. cbn.
      destruct (Z.leb_spec 0 (o + 1)); lia.
  - rewrite (for_loop_throw _ _ _ st0 [Index offset] Hc)
      by (by apply temp_body_outside).
    left. done.
Qed.

(** X2: whatever its arguments, the temperature extractor ends.  When it
    returns, it has made one entry per loop iteration, out of consecutive
    forecast entries from [offset] on, and every index that was read is an
    element of the forecast.  When it throws, the last index read is no
    element. *)
Theorem extractor_always_wellformed `{Host} forecast numHours hoursPerSegment
    offset :
  let run := getTemperatures forecast numHours hoursPerSegment offset in
  match result run with
  | Returned temperatures =>
      length temperatures = iterations (events run) ∧
      (temperatures = [] ∨
       ∃ o, finite offset = Some o ∧ 0 ≤ o ∧
            o + Z.of_nat (length temperatures) ≤ Z.of_nat (length forecast) ∧
            temperatures
            = hourTemperature <$> take (length temperatures)
                                    (drop (Z.to_nat o) forecast)) ∧
      (∀ i, i ∈ indices (events run) → is_Some (element forecast i))
  | TypeError =>
      ∃ i, last (indices (events run)) = Some i ∧ element forecast i = None
  | OutOfFuel => False
  end.
Proof.
  intros run. pose proof (extractor_any forecast numHours hoursPerSegment offset)
    as Hrun. fold run in Hrun.
  destruct run as [log [temperatures| |]]; cbn [result events fst snd];
    [| |done].
  - destruct Hrun as [[-> ->]|(o & m & Hfin & Ho & Hm & -> & ->)].
    { split_and!; [done|by left|]. intros i Hi. by apply elem_of_nil in Hi. }
    assert (length (hourTemperature <$>
                    take (S m) (drop (Z.to_nat o) forecast)) = S m) as Hlen.
    { rewrite length_fmap, length_take, length_drop. lia. }
    rewrite Hlen. split_and!.
    + by rewrite iterations_Iteration, iterations_Index, iterations_temp_log.
    + right. exists o. split_and!; [done..|lia|done].
    + intros i.
      rewrite indices_Iteration, indices_Index, indices_temp_log, elem_of_cons.
      intros [->|(q & -> & Hq%elem_of_seq)%list_elem_of_fmap].
      * rewrite (element_finite _ _ o) by done.
        apply lookup_lt_is_Some_2. lia.
      * rewrite element_Num by lia. apply lookup_lt_is_Some_2. lia.
  - destruct Hrun as [[Hnone ->]|(o & m & Hfin & Ho & Hm & ->)].
    + by exists offset.
    + exists (Num (Z.of_nat (length forecast))).
      split; [|apply element_None_Num; lia].
      rewrite indices_Iteration, indices_Index, indices_app, indices_temp_log.
      change (indices [Iteration; Index (Num (Z.of_nat (length forecast)))])
        with [Num (Z.of_nat (length forecast))].
      by rewrite app_comm_cons, last_snoc.
Qed.

(** ** The encoder and the extractor side by side *)

Lemma ceiling_floor n h :
  1 ≤ h →
  (n + h - 1) `div` h = n `div` h + (if n `mod` h =? 0 then 0 else 1).
Proof.
  intros Hh. pose proof (Z.mod_pos_bound n h ltac:(lia)) as Hr.
  pose proof (Z.div_mod n h ltac:(lia)) as Hn.
  symmetry. destruct (Z.eqb_spec (n `mod` h) 0) as [H0|H0].
  - apply (Z.div_unique _ _ _ (h - 1)); lia.
  - apply (Z.div_unique _ _ _ (n `mod` h - 1)); lia.
Qed.

(** X3: for [hoursPerSegment >= 1], [offset] an index of the forecast and
    [numHours] within coverage, the bar of the encoder has
    [max 1 (ceil (numHours / hoursPerSegment))] units and the extractor makes
    [max 0 (floor (numHours / hoursPerSegment))] labels; the [k]-th label and
    the [k]-th unit of the bar come from the same forecast entry; and the
    two have the same length exactly when [numHours] is a positive multiple
    of [hoursPerSegment]. *)
Theorem bar_and_labels_aligned `{Host} forecast n h o :
  1 ≤ h → 0 ≤ o < Z.of_nat (length forecast) →
  n ≤ (Z.of_nat (length forecast) - o) * h →
  ∃ spans temperatures,
    result (getConditionListFromForecast forecast (Num n) (Num h) (Num o))
    = Returned spans ∧
    result (getTemperatures forecast (Num n) (Num h) (Num o))
    = Returned temperatures ∧
    total_runLength spans = Z.max 1 ((n + h - 1) `div` h) ∧
    Z.of_nat (length temperatures) = Z.max 0 (n `div` h) ∧
    (∀ (k : nat) fs,
       (k < length temperatures)%nat →
       forecast !! (Z.to_nat o + k)%nat = Some fs →
       temperatures !! k = Some (hourTemperature fs) ∧
       expand spans !! k = Some (condition fs)) ∧
    (total_runLength spans = Z.of_nat (length temperatures)
     ↔ 1 ≤ n ∧ n `mod` h = 0).
Proof.
  intros Hh Ho Hcov.
  pose proof (visited_covered forecast n h o Hh Hcov) as Hv.
  pose proof (ceiling_floor n h Hh) as Hcf.
  assert (n `div` h ≤ (n + h - 1) `div` h) as Hfc
    by (destruct (n `mod` h =? 0); lia).
  destruct (encoder_run forecast n h o Hh (proj1 Ho) (S (length forecast)))
    as (spans & Hrun & Hexp & Hpos & _); [unfold visited; lia..|].
  unfold getConditionListFromForecast, getTemperatures.
  rewrite Hrun, extractor_run by lia.
  eexists _, _. split; [done|]. split; [done|].
  assert (total_runLength spans = Z.max 1 ((n + h - 1) `div` h)) as Hsum.
  { rewrite total_runLength_expand, Hexp by done.
    rewrite length_fmap, length_take, length_drop. unfold visited. lia. }
  assert (Z.of_nat (length (hourTemperature <$>
            take (Z.to_nat (n `div` h)) (drop (Z.to_nat o) forecast)))
          = Z.max 0 (n `div` h)) as Hlen.
  { rewrite length_fmap, length_take, length_drop. lia. }
  split_and!; [done..| |].
  - intros k fs Hk Hfs. rewrite length_fmap, length_take in Hk.
    rewrite Hexp, !list_lookup_fmap.
    rewrite !lookup_take_lt, lookup_drop, Hfs by (unfold visited; lia). done.
  - rewrite Hsum, Hlen. split.
    + intros Heq. assert (1 ≤ n).
      { destruct (decide (1 ≤ n)); [done|].
        assert (n `div` h ≤ 0) by (apply Z.div_le_upper_bound; lia). lia. }
      split; [done|].
      destruct (Z.eqb_spec (n `mod` h) 0); [done|].
      assert (0 ≤ n `div` h) by (apply Z.div_pos; lia). lia.
    + intros [Hn Hmod]. rewrite Hmod in Hcf. cbn in Hcf.
      assert (1 ≤ n `div` h).
      { apply Z.div_le_lower_bound; [lia|].
        pose proof (Z.div_mod n h ltac:(lia)).
        destruct (decide (1 ≤ n `div` h)); nia. }
      lia.
Qed.

Lemma bar_and_labels_aligned_witness :
  ∃ spans temperatures,
    result (getConditionListFromForecast hourly (Num 3) (Num 2) (Num 1))
    = Returned spans ∧
    result (@getTemperatures sample_host hourly (Num 3) (Num 2) (Num 1))
    = Returned temperatures ∧
    total_runLength spans = Z.max 1 ((3 + 2 - 1) `div` 2) ∧
    Z.of_nat (length temperatures) = Z.max 0 (3 `div` 2) ∧
    (∀ (k : nat) fs,
       (k < length temperatures)%nat →
       hourly !! (Z.to_nat 1 + k)%nat = Some fs →
       temperatures !! k = Some (@hourTemperature sample_host fs) ∧
       expand spans !! k = Some (condition fs)) ∧
    (total_runLength spans = Z.of_nat (length temperatures)
     ↔ 1 ≤ 3 ∧ 3 `mod` 2 = 0).
Proof.
  apply (@bar_and_labels_aligned sample_host hourly 3 2 1);
    vm_compute; (congruence || (split; congruence)).
Defined.

(** ** Rendering, beyond the request error *)

Lemma invocations_app l1 l2 :
  invocations (l1 ++ l2) = invocations l1 ++ invocations l2.
Proof. apply omap_app. Qed.

Lemma invocations_Index i l : invocations (Index i :: l) = invocations l.
Proof. done. Qed.

Lemma invocations_Iteration l : invocations (Iteration :: l) = invocations l.
Proof. done. Qed.

Lemma invocations_enc_log o k m : invocations (enc_log o k m) = [].
Proof.
  unfold enc_log. revert k. induction m as [|m IH]; intros k; [done|].
  cbn [seq]. rewrite bind_cons, invocations_app, IH. done.
Qed.

Lemma invocations_temp_log o k m : invocations (temp_log o k m) = [].
Proof.
  unfold temp_log. revert k. induction m as [|m IH]; intros k; [done|].
  cbn [seq]. rewrite bind_cons, invocations_app, IH. done.
Qed.

(** [render] once the bounds check has passed, by the outcomes of the
    encoder and of the extractor. *)
Lemma render_passes `{Host} forecast config :
  let numHours := parseInt (default "12" (num_hours config)) in
  let offset := parseInt (default "0" (offset config)) in
  let hoursPerSegment := determineHoursPerSegment forecast in
  let colorSettings := getColorSettings (colors config) in
  let before :=
    [Invoke determineHoursPerSegment_m; Invoke isForecastDaily_m;
     Invoke getConditionListFromForecast_m] in
  too_many_hours_requested forecast numHours hoursPerSegment offset = false →
  render forecast config
  = match getConditionListFromForecast forecast numHours hoursPerSegment
            offset with
    | (log1, Returned spans) =>
        match getTemperatures forecast numHours hoursPerSegment offset with
        | (log2, Returned temperatures) =>
            (before ++ log1 ++ [Invoke getTemperatures_m] ++ log2
                    ++ [Invoke getColorSettings_m],
             Returned
               (ha_card
                  (advisories_of (isForecastDaily forecast)
                     (number_rem_nonzero numHours hoursPerSegment)
                     hoursPerSegment (warnings colorSettings))
                  spans temperatures (validColors colorSettings)))
        | (log2, TypeError) =>
            (before ++ log1 ++ [Invoke getTemperatures_m] ++ log2, TypeError)
        | (log2, OutOfFuel) =>
            (before ++ log1 ++ [Invoke getTemperatures_m] ++ log2, OutOfFuel)
        end
    | (log1, TypeError) => (before ++ log1, TypeError)
    | (log1, OutOfFuel) => (before ++ log1, OutOfFuel)
    end.
Proof.
  intros numHours offset hoursPerSegment colorSettings before Hcheck.
  unfold render, too_many_hours_requested in *.
  fold numHours offset hoursPerSegment colorSettings.
  rewrite !call_ret, bind_Returned. cbn [fst snd app]. rewrite Hcheck.
  rewrite bind_Returned. cbn [fst snd app]. rewrite !call_unfold.
  destruct (getConditionListFromForecast _ _ _ _) as [log1 [spans| |]];
    cbn [events result fst snd]; [|done..].
  rewrite bind_Returned. cbn [fst snd app].
  destruct (getTemperatures _ _ _ _) as [log2 [temperatures| |]];
    cbn [events result fst snd];
    [|unfold before; cbn [app]; by rewrite <- ?app_assoc..].
  rewrite !bind_Returned. cbn [fst snd app events result ret].
  unfold before, advisories_of. cbn [app].
  by rewrite <- ?app_assoc.
Qed.

Lemma number_rem_nonzero_Num n h :
  h ≠ 0 → number_rem_nonzero (Num n) (Num h) = negb (n `mod` h =? 0).
Proof.
  intros Hh. cbn. rewrite (proj2 (Z.eqb_neq h 0)) by done. f_equal.
  destruct (Z.eqb_spec (Z.rem n h) 0) as [Hr|Hr],
           (Z.eqb_spec (n `mod` h) 0) as [Hm|Hm]; try done.
  - apply Z.rem_divide in Hr; [|done]. by apply Z.mod_divide in Hr.
  - apply Z.mod_divide in Hm; [|done]. by apply Z.rem_divide in Hm.
Qed.

Lemma number_lt_NaN x : number_lt x NaN = false.
Proof. by destruct x. Qed.

Lemma too_many_hours_requested_NaN {A} (forecast : list A) x y :
  too_many_hours_requested forecast NaN x y = false ∧
  too_many_hours_requested forecast x y NaN = false.
Proof.
  unfold too_many_hours_requested, number_gt. split.
  - apply number_lt_NaN.
  - by destruct y, x.
Qed.

Lemma encoder_no_index forecast numHours hoursPerSegment offset :
  element forecast offset = None →
  getConditionListFromForecast forecast numHours hoursPerSegment offset
  = ([Index offset], TypeError).
Proof.
  intros E.
  unfold getConditionListFromForecast, getConditionListFromForecast_fuel.
  by rewrite index_None.
Qed.

Lemma encoder_NaN forecast hoursPerSegment offset fs :
  element forecast offset = Some fs →
  getConditionListFromForecast forecast NaN hoursPerSegment offset
  = ([Index offset], Returned [(condition fs, 1)]).
Proof.
  intros E.
  unfold getConditionListFromForecast, getConditionListFromForecast_fuel.
  rewrite (index_Some _ _ fs), bind_Returned by done. cbn [fst snd].
  rewrite for_loop_done; [done|]. unfold enc_cond. cbn [number_add].
  apply number_lt_NaN.
Qed.

Lemma extractor_NaN `{Host} forecast hoursPerSegment offset :
  getTemperatures forecast NaN hoursPerSegment offset = ([], Returned []).
Proof.
  unfold getTemperatures, getTemperatures_fuel.
  rewrite for_loop_done; [done|]. unfold temp_cond. cbn.
  apply number_lt_NaN.
Qed.

(** X4: when the configured numbers parse, the detector finds a resolution
    [h >= 1], [offset] is an index of the forecast and the bounds check
    passes, [render] does not throw: it calls the five methods in order and
    shows a card made of the encoder's spans, of the extractor's labels and
    of the valid colors, with the advisory on [num_hours] exactly when it is
    no multiple of [h]. *)
Theorem render_valid_request `{Host} forecast config n h o :
  parseInt (default "12" (num_hours config)) = Num n →
  parseInt (default "0" (offset config)) = Num o →
  determineHoursPerSegment forecast = Num h →
  1 ≤ h → 0 ≤ o < Z.of_nat (length forecast) →
  n ≤ (Z.of_nat (length forecast) - o) * h →
  ∃ spans temperatures,
    result (getConditionListFromForecast forecast (Num n) (Num h) (Num o))
    = Returned spans ∧
    result (getTemperatures forecast (Num n) (Num h) (Num o))
    = Returned temperatures ∧
    result (render forecast config)
    = Returned
        (ha_card
           (advisories_of (isForecastDaily forecast)
              (negb (n `mod` h =? 0)) (Num h)
              (warnings (getColorSettings (colors config))))
           spans temperatures
           (validColors (getColorSettings (colors config)))) ∧
    invocations (events (render forecast config))
    = [determineHoursPerSegment_m; isForecastDaily_m;
       getConditionListFromForecast_m; getTemperatures_m;
       getColorSettings_m].
Proof.
  intros Hn Ho Hh Hh1 Hidx Hcov.
  pose proof (visited_covered forecast n h o Hh1 Hcov) as Hv.
  pose proof (ceiling_floor n h Hh1) as Hcf.
  assert (n `div` h ≤ (n + h - 1) `div` h) as Hfc
    by (destruct (n `mod` h =? 0); lia).
  rewrite render_passes; rewrite Hn, Ho, Hh; last first.
  { rewrite too_many_hours_requested_Num. apply bool_decide_false. lia. }
  destruct (encoder_run forecast n h o Hh1 (proj1 Hidx) (S (length forecast)))
    as (spans & Hrun & _); [unfold visited; lia..|].
  unfold getConditionListFromForecast, getTemperatures.
  rewrite Hrun, extractor_run by lia.
  eexists _, _. split; [done|]. split; [done|].
  rewrite number_rem_nonzero_Num by lia. split; [done|].
  unfold events. cbn [fst].
  by rewrite !invocations_app, invocations_Index, invocations_enc_log,
    invocations_temp_log.
Qed.

Lemma render_valid_request_witness :
  ∃ spans temperatures,
    result (getConditionListFromForecast day_forecast (Num 12) (Num 1) (Num 0))
    = Returned spans ∧
    result (@getTemperatures sample_host day_forecast (Num 12) (Num 1) (Num 0))
    = Returned temperatures ∧
    result (@render sample_host day_forecast
              {| num_hours := None; offset := None; colors := None |})
    = Returned
        (ha_card
           (advisories_of (@isForecastDaily sample_host day_forecast)
              (negb (12 `mod` 1 =? 0)) (Num 1) [])
           spans temperatures None) ∧
    invocations (events (@render sample_host day_forecast
                           {| num_hours := None; offset := None;
                              colors := None |}))
    = [determineHoursPerSegment_m; isForecastDaily_m;
       getConditionListFromForecast_m; getTemperatures_m;
       getColorSettings_m].
Proof.
  apply (@render_valid_request sample_host day_forecast
           {| num_hours := None; offset := None; colors := None |} 12 1 0);
    vm_compute; (congruence || (split; congruence)).
Defined.

(** X5: the bounds check does not look at [offset] by itself.  When
    [offset] is no index of the forecast (it is negative, too large, or does
    not parse) and the check passes, as it always does when [offset] does not
    parse, [render] throws a [TypeError] on reading [forecast[offset]];
    neither the extractor nor the color validator is invoked. *)
Theorem render_offset_no_index `{Host} forecast config :
  let numHours := parseInt (default "12" (num_hours config)) in
  let offset := parseInt (default "0" (offset config)) in
  element forecast offset = None →
  offset = NaN ∨
  too_many_hours_requested forecast numHours
    (determineHoursPerSegment forecast) offset = false →
  render forecast config
  = ([Invoke determineHoursPerSegment_m; Invoke isForecastDaily_m;
      Invoke getConditionListFromForecast_m; Index offset], TypeError).
Proof.
  intros numHours offset E Hcheck.
  assert (too_many_hours_requested forecast numHours
            (determineHoursPerSegment forecast) offset = false) as Hc.
  { destruct Hcheck as [->|]; [|done].
    apply too_many_hours_requested_NaN. }
  rewrite render_passes by done. fold numHours offset.
  by rewrite encoder_no_index.
Qed.

Lemma render_offset_no_index_witness :
  @render sample_host hourly
    {| num_hours := Some "5"; offset := Some "-1"; colors := None |}
  = ([Invoke determineHoursPerSegment_m; Invoke isForecastDaily_m;
      Invoke getConditionListFromForecast_m; Index (Num (-1))], TypeError) ∧
  @render sample_host hourly
    {| num_hours := Some "5"; offset := Some "first"; colors := None |}
  = ([Invoke determineHoursPerSegment_m; Invoke isForecastDaily_m;
      Invoke getConditionListFromForecast_m; Index NaN], TypeError).
Proof.
  split.
  - apply (@render_offset_no_index sample_host hourly
             {| num_hours := Some "5"; offset := Some "-1"; colors := None |});
      [reflexivity|right; reflexivity].
  - apply (@render_offset_no_index sample_host hourly
             {| num_hours := Some "5"; offset := Some "first";
                colors := None |});
      [reflexivity|left; reflexivity].
Defined.

(** X6: a [num_hours] that does not parse is never a request error.  With
    [offset] an index of the forecast, [render] shows a bar of one unit (the
    entry at [offset]) without any temperature label, together with the
    advisory on [num_hours], whatever the resolution of the forecast. *)
Theorem render_unparsable_num_hours `{Host} forecast config fs :
  parseInt (default "12" (num_hours config)) = NaN →
  element forecast (parseInt (default "0" (offset config))) = Some fs →
  result (render forecast config)
  = Returned
      (ha_card
         (advisories_of (isForecastDaily forecast) true
            (determineHoursPerSegment forecast)
            (warnings (getColorSettings (colors config))))
         [(condition fs, 1)] []
         (validColors (getColorSettings (colors config)))).
Proof.
  intros Hn E.
  rewrite render_passes; rewrite Hn;
    [|apply too_many_hours_requested_NaN].
  by rewrite (encoder_NaN _ _ _ fs), extractor_NaN.
Qed.

Lemma render_unparsable_num_hours_witness :
  result (@render sample_host hourly
            {| num_hours := Some "twelve"; offset := Some "2";
               colors := None |})
  = Returned
      (ha_card [num_hours_not_multiple (Num 1)] [("cloudy", 1)] [] None).
Proof.
  apply (@render_unparsable_num_hours sample_host hourly
           {| num_hours := Some "twelve"; offset := Some "2";
              colors := None |} (segment "cloudy" 2)); reflexivity.
Defined.

Lemma determineHoursPerSegment_finite forecast fs1 fs2 :
  forecast !! 0%nat = Some fs1 → forecast !! 1%nat = Some fs2 →
  finite (determineHoursPerSegment forecast)
  = Some ((2 * (datetime fs2 - datetime fs1) + 3600000) `div` 7200000).
Proof.
  intros H1 H2. destruct forecast as [|? [|? rest]]; simplify_eq/=.
  unfold Math_round_div. by rewrite finite_of_Z.
Qed.

(** X7: a forecast whose second entry comes less than half an hour after
    the first, or before it, has a resolution of zero or less, and then no
    positive [num_hours] can be shown: for every [offset] up to
    [forecast.length], [render] returns the request error. *)
Theorem render_fine_grained_forecast `{Host} forecast config fs1 fs2 n o :
  forecast !! 0%nat = Some fs1 → forecast !! 1%nat = Some fs2 →
  datetime fs2 - datetime fs1 < 1800000 →
  parseInt (default "12" (num_hours config)) = Num n → 1 ≤ n →
  parseInt (default "0" (offset config)) = Num o →
  o ≤ Z.of_nat (length forecast) →
  ∃ h, finite (determineHoursPerSegment forecast) = Some h ∧ h ≤ 0 ∧
       result (render forecast config)
       = Returned (error_card (localize "errors.too_many_hours_requested")).
Proof.
  intros H1 H2 Hdelta Hn Hn1 Ho Hlen.
  pose proof (determineHoursPerSegment_finite forecast fs1 fs2 H1 H2) as Hh.
  eexists. split; [done|].
  assert ((2 * (datetime fs2 - datetime fs1) + 3600000) `div` 7200000 ≤ 0)
    as Hle.
  { enough ((2 * (datetime fs2 - datetime fs1) + 3600000) `div` 7200000 < 1)
      by lia.
    apply Z.div_lt_upper_bound; lia. }
  split; [done|].
  rewrite render_rejects; [done|].
  rewrite Hn, Ho.
  rewrite (too_many_hours_requested_finite forecast (Num n) _ (Num o) n _ o
             eq_refl Hh eq_refl).
  apply bool_decide_true. nia.
Qed.

Lemma render_fine_grained_forecast_witness :
  ∃ h, finite (determineHoursPerSegment
                 [ {| datetime := 0; condition := "sunny";
                      temperature := QArith_base.Qmake 20 1 |};
                   {| datetime := 900000; condition := "sunny";
                      temperature := QArith_base.Qmake 20 1 |} ]) = Some h ∧
       h ≤ 0 ∧
       result (@render sample_host
                 [ {| datetime := 0; condition := "sunny";
                      temperature := QArith_base.Qmake 20 1 |};
                   {| datetime := 900000; condition := "sunny";
                      temperature := QArith_base.Qmake 20 1 |} ]
                 {| num_hours := Some "1"; offset := None; colors := None |})
       = Returned (error_card "errors.too_many_hours_requested").
Proof.
  apply (@render_fine_grained_forecast sample_host _
           {| num_hours := Some "1"; offset := None; colors := None |}
           {| datetime := 0; condition := "sunny";
              temperature := QArith_base.Qmake 20 1 |}
           {| datetime := 900000; condition := "sunny";
              temperature := QArith_base.Qmake 20 1 |} 1 0);
    vm_compute; congruence.
Defined.




(** ** The daily-forecast classifier, beyond its definition *)

Lemma dates_range `{Host} forecast :
  (list_to_set (dates forecast) : gset Z) ⊆ list_to_set (seqZ 1 31).
Proof.
  intros d. rewrite !elem_of_list_to_set. unfold dates.
  intros (f & -> & _)%list_elem_of_fmap. rewrite elem_of_seqZ.
  unfold getDate. pose proof (DateFromTime_range (datetime f + LocalTZA (datetime f))).
  lia.
Qed.

(** X9: a forecast of at most two entries is always classified daily,
    whatever its timestamps. *)
Theorem isForecastDaily_short `{Host} forecast :
  (length forecast ≤ 2)%nat → isForecastDaily forecast = true.
Proof.
  intros Hlen. unfold isForecastDaily. apply bool_decide_eq_true.
  destruct forecast as [|f1 [|f2 [|f3 rest]]]; cbn [length] in *; [lia..| |lia].
  rewrite fmap_cons. cbn [list_to_set].
  rewrite size_union_alt, size_singleton. lia.
Qed.

Lemma isForecastDaily_short_witness :
  @isForecastDaily sample_host [segment "sunny" 0; segment "sunny" 1] = true.
Proof.
  apply (@isForecastDaily_short sample_host
           [segment "sunny" 0; segment "sunny" 1]).
  cbn [length]. lia.
Defined.

(** X10: a forecast of 33 entries or more, all with a valid timestamp, is
    never classified daily: the entries have at most 31 different days of
    the month. *)
Theorem isForecastDaily_long `{Host} forecast :
  (33 ≤ length forecast)%nat → isForecastDaily forecast = false.
Proof.
  intros Hlen. unfold isForecastDaily. apply bool_decide_eq_false.
  fold (dates forecast).
  pose proof (subseteq_size _ _ (dates_range forecast)) as Hsize.
  rewrite (size_list_to_set (seqZ 1 31)) in Hsize by apply NoDup_seqZ.
  rewrite length_seqZ in Hsize. lia.
Qed.

Lemma isForecastDaily_long_witness :
  @isForecastDaily sample_host
    ((λ d, segment "sunny" (24 * Z.of_nat d)) <$> seq 0 33) = false.
Proof.
  apply (@isForecastDaily_long sample_host
           ((λ d, segment "sunny" (24 * Z.of_nat d)) <$> seq 0 33)).
  rewrite length_fmap, length_seq. lia.
Defined.

Lemma size_list_to_set_app (l k : list Z) :
  (size (list_to_set (l ++ k) : gset Z)
   ≤ size (list_to_set l : gset Z) + length k)%nat.
Proof.
  rewrite list_to_set_app_L.
  pose proof (size_union_alt (list_to_set l : gset Z) (list_to_set k)) as Hu.
  assert (list_to_set k ∖ list_to_set l ⊆ (list_to_set k : gset Z)) as Hsub.
  { intros y. rewrite elem_of_difference. tauto. }
  apply subseteq_size in Hsub.
  pose proof (size_list_to_set_le k). lia.
Qed.

(** X11: the classification does not depend on the order of the entries,
    and taking entries out of a forecast classified daily leaves it
    classified daily. *)
Theorem isForecastDaily_submseteq `{Host} forecast1 forecast2 :
  forecast1 ⊆+ forecast2 →
  isForecastDaily forecast2 = true → isForecastDaily forecast1 = true.
Proof.
  intros (rest & Hperm)%submseteq_Permutation.
  unfold isForecastDaily. rewrite !bool_decide_eq_true.
  fold (dates forecast1) (dates forecast2).
  assert (dates forecast2 ≡ₚ dates forecast1 ++ dates rest) as Hdates.
  { unfold dates. by rewrite Hperm, fmap_app. }
  assert ((list_to_set (dates forecast2) : gset Z)
          = list_to_set (dates forecast1 ++ dates rest)) as ->.
  { apply set_eq. intros d. rewrite !elem_of_list_to_set. by rewrite Hdates. }
  pose proof (size_list_to_set_app (dates forecast1) (dates rest)) as Hle.
  assert (length (dates rest) = length rest) as Hrest
    by apply length_fmap.
  rewrite Hperm, length_app. lia.
Qed.

Lemma isForecastDaily_submseteq_witness :
  @isForecastDaily sample_host [segment "rainy" 48; segment "sunny" 0] = true.
Proof.
  apply (@isForecastDaily_submseteq sample_host
           [segment "rainy" 48; segment "sunny" 0]
           [segment "sunny" 0; segment "cloudy" 24; segment "rainy" 48]).
  - transitivity [segment "sunny" 0; segment "rainy" 48].
    + apply Permutation_submseteq, perm_swap.
    + apply submseteq_skip, submseteq_cons, submseteq_skip, submseteq_nil_l.
  - reflexivity.
Defined.

(** ** The color configuration validator, beyond its definition *)

Lemma getColorSettings_valid `{Host} (entries : ColorConfig) :
  NoDup entries.*1 →
  ∃ valid,
    getColorSettings (Some entries)
    = {| validColors := Some valid;
         warnings := warning_text <$> filter (λ e, ¬ accepted e) entries |} ∧
    ∀ k v, valid !! k = Some v ↔ (k, v) ∈ entries ∧ accepted (k, v).
Proof.
  intros Hnd.
  destruct (color_fold entries (∅, []) Hnd) as (Hw & Hv & _); [done|].
  cbn [fst snd] in *. exists (foldl color_step (∅, []) entries).1.
  unfold getColorSettings. rewrite Hw. split; [done|].
  intros k v. rewrite Hv, lookup_empty. split; [|tauto].
  by intros [?|?].
Qed.

(** X12: validating the valid colors again changes nothing.  The entries
    of the [validColors] of a configuration are all accepted: the
    configuration that consists of them gives the same [validColors] and no
    warning. *)
Theorem getColorSettings_idempotent `{Host} (entries : ColorConfig) :
  NoDup entries.*1 →
  ∃ valid,
    validColors (getColorSettings (Some entries)) = Some valid ∧
    getColorSettings (Some (map_to_list valid))
    = {| validColors := Some valid; warnings := [] |}.
Proof.
  intros Hnd.
  destruct (getColorSettings_valid entries Hnd) as (valid & -> & Hvalid).
  exists valid. split; [done|].
  destruct (getColorSettings_valid (map_to_list valid)) as (valid' & -> & Hv').
  { apply NoDup_fst_map_to_list. }
  f_equal.
  - f_equal. apply map_eq. intros k. apply option_eq. intros v.
    rewrite Hv', elem_of_map_to_list, Hvalid. tauto.
  - destruct (filter _ (map_to_list valid)) as [|[k v] rest] eqn:Hrest;
      [done|].
    assert ((k, v) ∈ filter (λ e, ¬ accepted e) (map_to_list valid))
      as [Hnot Hin%elem_of_map_to_list]%list_elem_of_filter
      by (rewrite Hrest; left).
    destruct Hnot. by apply Hvalid.
Qed.

Lemma getColorSettings_idempotent_witness :
  ∃ valid,
    validColors (@getColorSettings sample_host
                   (Some [("sunny", "red"); ("foggy", "blue");
                          ("rainy", "reddish")])) = Some valid ∧
    @getColorSettings sample_host (Some (map_to_list valid))
    = {| validColors := Some valid; warnings := [] |}.
Proof.
  apply (@getColorSettings_idempotent sample_host
           [("sunny", "red"); ("foggy", "blue"); ("rainy", "reddish")]).
  apply (bool_decide_unpack _). by vm_compute.
Defined.

(** X13: the valid colors do not depend on the order of the entries of the
    configuration, and the warnings are the same up to their order. *)
Theorem getColorSettings_order `{Host} (entries1 entries2 : ColorConfig) :
  NoDup entries1.*1 → entries1 ≡ₚ entries2 →
  validColors (getColorSettings (Some entries1))
  = validColors (getColorSettings (Some entries2)) ∧
  warnings (getColorSettings (Some entries1))
  ≡ₚ warnings (getColorSettings (Some entries2)).
Proof.
  intros Hnd1 Hperm.
  assert (NoDup entries2.*1) as Hnd2 by (by rewrite <- Hperm).
  destruct (getColorSettings_valid entries1 Hnd1) as (valid1 & -> & Hv1).
  destruct (getColorSettings_valid entries2 Hnd2) as (valid2 & -> & Hv2).
  cbn [validColors warnings]. split.
  - f_equal. apply map_eq. intros k. apply option_eq. intros v.
    rewrite Hv1, Hv2. by rewrite Hperm.
  - by rewrite Hperm.
Qed.

Lemma getColorSettings_order_witness :
  validColors (@getColorSettings sample_host
                 (Some [("sunny", "red"); ("foggy", "blue");
                        ("rainy", "#fff")]))
  = validColors (@getColorSettings sample_host
                   (Some [("rainy", "#fff"); ("sunny", "red");
                          ("foggy", "blue")])) ∧
  warnings (@getColorSettings sample_host
              (Some [("sunny", "red"); ("foggy", "blue"); ("rainy", "#fff")]))
  ≡ₚ warnings (@getColorSettings sample_host
                 (Some [("rainy", "#fff"); ("sunny", "red");
                        ("foggy", "blue")])).
Proof.
  apply (@getColorSettings_order sample_host
           [("sunny", "red"); ("foggy", "blue"); ("rainy", "#fff")]
           [("rainy", "#fff"); ("sunny", "red"); ("foggy", "blue")]).
  - apply (bool_decide_unpack _). by vm_compute.
  - apply (bool_decide_unpack _). by vm_compute.
Defined.

(** ** The hour labels *)

Lemma index_first_occurrence pat s m :
  pat ≠ EmptyString → first_occurrence pat s m →
  String.index 0 pat s = Some m.
Proof.
  intros Hpat [Hm Hfirst].
  destruct (String.index 0 pat s) as [m'|] eqn:Hindex.
  - pose proof (String.index_correct1 _ _ _ _ Hindex) as Hm'.
    pose proof (String.index_correct2 _ _ _ _ Hindex) as Hfirst'.
    destruct (lt_eq_lt_dec m m') as [[Hlt| ->]|Hlt]; [|done|].
    + destruct (Hfirst' m); [lia|done|done].
    + by destruct (Hfirst m').
  - by destruct (String.index_correct3 0 m _ _ Hindex Hpat ltac:(lia)).
Qed.

Lemma includes_spec s pat :
  pat ≠ EmptyString →
  includes s pat = true ↔ ∃ p, String.substring p (String.length pat) s = pat.
Proof.
  intros Hpat. unfold includes. rewrite bool_decide_eq_true. split.
  - intros [m Hindex]. exists m. by apply String.index_correct1 in Hindex.
  - intros [p Hp]. destruct (String.index 0 pat s) eqn:Hindex; [done|].
    by destruct (String.index_correct3 0 p _ _ Hindex Hpat ltac:(lia)).
Qed.

Lemma substring_all s : String.substring 0 (String.length s) s = s.
Proof. induction s as [|c s IH]; [done|]. cbn. f_equal. apply IH. Qed.

Lemma append_String x a c : String x a +:+ c = String x (a +:+ c).
Proof. done. Qed.

Lemma substring_append_l a c :
  String.substring 0 (String.length a) (a +:+ c) = a.
Proof.
  induction a as [|x a IH]; [by destruct c|].
  rewrite append_String. cbn. f_equal. apply IH.
Qed.

Lemma substring_append_r a c n m :
  String.substring (String.length a + n) m (a +:+ c) = String.substring n m c.
Proof.
  induction a as [|x a IH]; [done|]. rewrite append_String. apply IH.
Qed.

Lemma length_append a c :
  String.length (a +:+ c) = (String.length a + String.length c)%nat.
Proof.
  induction a as [|x a IH]; [done|].
  rewrite append_String. cbn. f_equal. apply IH.
Qed.

(** X14: a label without [AM] and [PM], and a label without [:00], is
    left as the host formatted it. *)
Theorem formatHour_unchanged `{Host} time :
  (∀ p, String.substring p 2 (formatTime time) ≠ "AM" ∧
        String.substring p 2 (formatTime time) ≠ "PM") ∨
  (∀ p, String.substring p 3 (formatTime time) ≠ ":00") →
  formatHour time = formatTime time.
Proof.
  intros Hno. unfold formatHour. cbv zeta.
  destruct Hno as [Hno|Hno].
  - destruct (includes (formatTime time) "AM") eqn:HAM.
    { apply includes_spec in HAM as [p Hp]; [|done]. by destruct (Hno p). }
    destruct (includes (formatTime time) "PM") eqn:HPM; [|done].
    apply includes_spec in HPM as [p Hp]; [|done]. by destruct (Hno p).
  - assert (String.index 0 ":00" (formatTime time) = None) as Hindex.
    { destruct (String.index 0 ":00" (formatTime time)) as [m|] eqn:Hindex;
        [|done].
      apply String.index_correct1 in Hindex. by destruct (Hno m). }
    unfold replace. rewrite Hindex. by destruct (_ || _).
Qed.

Lemma formatHour_unchanged_witness :
  @formatHour sample_host (13 * 3600000 + 30 * 60000) = "1:30 PM".
Proof.
  apply (@formatHour_unchanged sample_host (13 * 3600000 + 30 * 60000)).
  right. intros p. change (formatTime _) with "1:30 PM".
  do 8 (destruct p as [|p]; [by vm_compute|]). by vm_compute.
Defined.

(** X15: from a label with [AM] or [PM] the first [:00] is taken out, and
    nothing else: a label [a ++ ":00" ++ b], in which no [:00] starts within
    [a], becomes [a ++ b], wherever that [:00] stands. *)
Theorem formatHour_drops_first `{Host} time a b :
  formatTime time = a +:+ ":00" +:+ b →
  (∀ q, (q < String.length a)%nat →
        String.substring q 3 (formatTime time) ≠ ":00") →
  (∃ p, String.substring p 2 (formatTime time) = "AM" ∨
        String.substring p 2 (formatTime time) = "PM") →
  formatHour time = a +:+ b.
Proof.
  intros Hab Hfirst [p Hp]. unfold formatHour. cbv zeta.
  assert (includes (formatTime time) "AM" || includes (formatTime time) "PM"
          = true) as ->.
  { apply orb_true_iff.
    destruct Hp as [Hp|Hp]; [left|right]; apply includes_spec; eauto. }
  unfold replace.
  rewrite (index_first_occurrence _ _ (String.length a)); [|done|].
  - rewrite Hab. rewrite substring_append_l.
    rewrite !length_append. change (String.length ":00") with 3%nat.
    replace (String.length a + (3 + String.length b)
             - (String.length a + 3))%nat with (String.length b) by lia.
    rewrite substring_append_r.
    change (String.substring 3 ?n (":00" +:+ b)) with (String.substring 0 n b).
    by rewrite substring_all.
  - split; [|done]. rewrite Hab.
    rewrite <- (Nat.add_0_r (String.length a)), substring_append_r.
    cbn. by destruct b.
Qed.

Lemma formatHour_drops_first_witness :
  @formatHour sample_host 0 = "12 AM".
Proof.
  apply (@formatHour_drops_first sample_host 0 "12" " AM").
  - reflexivity.
  - intros q Hq. change (formatTime _) with "12:00 AM".
    do 2 (destruct q as [|q]; [by vm_compute|]). cbn in Hq. lia.
  - exists 6%nat. by left.
Defined.

(** ** The configuration of the card *)

Lemma setConfig_stored `{Host} lovelace config config' e :
  setConfig lovelace config = stored config' e →
  ∃ c, config = Some c ∧
    (∃ id, entity c = Some id ∧ id ≠ EmptyString) ∧
    (test_gui c = true → lovelace = true) ∧ e = test_gui c ∧
    config' = {| entity := entity c;
                 name := Some (default (Some (localize "common.title"))
                                 (name c));
                 test_gui := test_gui c; options := options c |}.
Proof.
  unfold setConfig. destruct config as [c|]; [|done].
  destruct (entity c) as [[|x id]|] eqn:E; [done| |done].
  destruct (test_gui c) eqn:G, lovelace; cbn; try done.
  all: intros [= <- <-]; exists c; rewrite E, G;
    split_and!; [done|by eexists|done..].
Qed.

Lemma this_config_after_throws `{Host} this_config call :
  throws call → this_config_after this_config call = this_config.
Proof.
  unfold throws, this_config_after. intros Hthrows.
  destruct (setConfig call.1 call.2) as [| |config' e] eqn:Hcall; [done..|].
  by destruct (Hthrows config' e).
Qed.

Lemma foldl_this_config_after_throws `{Host} this_config calls :
  Forall throws calls → foldl this_config_after this_config calls = this_config.
Proof.
  induction 1 as [|call calls Hcall _ IH]; [done|].
  cbn [foldl]. by rewrite this_config_after_throws.
Qed.

(** X16: whatever calls of [setConfig] have been made, [this.config] is
    either still unset, and then every call has thrown, [shouldUpdate]
    answers false and [_handleAction] handles nothing, or it is what the
    last call that did not throw stored: a configuration with a non-empty
    [entity] and a [name] property.  A call that throws leaves [this.config]
    as it was. *)
Theorem setConfig_history `{Host} (calls : list (bool * option CardConfig)) :
  let this_config := foldl this_config_after None calls in
  well_configured this_config ∧
  (this_config = None ↔ Forall throws calls) ∧
  (Forall throws calls →
   ∀ changed hass action,
     shouldUpdate this_config changed = false ∧
     _handleAction hass this_config action = false) ∧
  (∀ before call after config' e,
     calls = before ++ call :: after →
     setConfig call.1 call.2 = stored config' e → Forall throws after →
     this_config = Some config').
Proof.
  cbv zeta.
  assert (∀ before call after config' e,
            calls = before ++ call :: after →
            setConfig call.1 call.2 = stored config' e → Forall throws after →
            foldl this_config_after None calls = Some config') as Hlast.
  { intros before call after config' e -> Hcall Hafter.
    rewrite foldl_app. cbn [foldl].
    rewrite foldl_this_config_after_throws by done.
    unfold this_config_after. by rewrite Hcall. }
  assert (Forall throws calls ∨
          ∃ before call after config' e,
            calls = before ++ call :: after ∧
            setConfig call.1 call.2 = stored config' e ∧ Forall throws after)
    as Hcases.
  { clear Hlast.
    induction calls as [|call calls IH] using rev_ind; [by left|].
    destruct (setConfig call.1 call.2) as [msg| |config' e] eqn:Hcall.
    3: { right. exists calls, call, [], config', e. by split_and!. }
    all: assert (throws call) as Hthrows
      by (intros c' e'; by rewrite Hcall).
    all: destruct IH as [Hall|(before & c & after & c' & e & -> & Hc & Hafter)].
    1,3: left; apply Forall_app; split; [done|by constructor].
    all: right; exists before, c, (after ++ [call]), c', e;
      rewrite <- app_assoc; split_and!; [done|done|];
      apply Forall_app; split; [done|by constructor]. }
  split_and!.
  - intros config Hconfig.
    destruct Hcases as [Hall|(before & c & after & c' & e & Hcalls & Hc & Ha)].
    + by rewrite foldl_this_config_after_throws in Hconfig.
    + rewrite (Hlast _ _ _ _ _ Hcalls Hc Ha) in Hconfig.
      injection Hconfig as <-.
      apply setConfig_stored in Hc as (c0 & _ & Hentity & _ & _ & ->).
      by split.
  - split.
    + intros Hnone.
      destruct Hcases as [Hall|(before & c & after & c' & e & Hcalls & Hc & Ha)];
        [done|].
      by rewrite (Hlast _ _ _ _ _ Hcalls Hc Ha) in Hnone.
    + intros Hall. by apply foldl_this_config_after_throws.
  - intros Hall changed hass action.
    rewrite foldl_this_config_after_throws by done.
    split; [done|]. unfold _handleAction. by destruct hass.
  - done.
Qed.

(** X17: storing a stored configuration again stores the same: when
    [setConfig] accepts a configuration, it accepts what it stored and
    stores it unchanged. *)
Theorem setConfig_idempotent `{Host} lovelace config config' e :
  setConfig lovelace config = stored config' e →
  setConfig lovelace (Some config') = stored config' e.
Proof.
  intros (c & -> & (id & Hid & Hne) & Hgui & -> & ->)%setConfig_stored.
  unfold setConfig. cbn [entity test_gui name options]. rewrite Hid.
  destruct id as [|x id]; [done|].
  destruct (test_gui c) eqn:G; [rewrite Hgui by done|]; done.
Qed.

Lemma setConfig_idempotent_witness :
  @setConfig sample_host true
    (Some {| entity := Some "weather.home";
             name := Some (Some "common.title"); test_gui := true;
             options := {| num_hours := None; offset := None;
                           colors := None |} |})
  = stored {| entity := Some "weather.home";
              name := Some (Some "common.title"); test_gui := true;
              options := {| num_hours := None; offset := None;
                            colors := None |} |} true.
Proof.
  apply (@setConfig_idempotent sample_host true
           (Some {| entity := Some "weather.home"; name := None;
                    test_gui := true;
                    options := {| num_hours := None; offset := None;
                                  colors := None |} |})).
  reflexivity.
Defined.

(** X18: the card rejects its own stub configuration: [setConfig] throws
    [errors.missing_entity] on what [getStubConfig] returns, and goes on
    doing so whatever options are added to it, until an [entity] is. *)
Theorem setConfig_getStubConfig `{Host} lovelace name test_gui options :
  setConfig lovelace
    (Some {| entity := entity getStubConfig; name := name;
             test_gui := test_gui; options := options |})
  = threw (localize "errors.missing_entity") ∧
  setConfig lovelace (Some getStubConfig)
  = threw (localize "errors.missing_entity").
Proof. done. Qed.

(** ** The encoder's result is canonical *)

Lemma expand_cons sp spans :
  expand (sp :: spans) = replicate (Z.to_nat sp.2) sp.1 ++ expand spans.
Proof. done. Qed.

Lemma head_expand spans :
  Forall (λ sp : ConditionSpan, 1 ≤ sp.2) spans →
  head (expand spans) = head spans.*1.
Proof.
  destruct 1 as [|[c k] spans Hk _]; [done|].
  rewrite expand_cons. cbn [fst snd fmap list_fmap head].
  destruct (Z.to_nat k) as [|k'] eqn:Hk'; [cbn in Hk; lia|done].
Qed.

Lemma adjacent_distinct_cons {A} (x : A) (l : list A) :
  adjacent_distinct (x :: l) → head l ≠ Some x ∧ adjacent_distinct l.
Proof.
  intros Hadj. split.
  - destruct l as [|y l]; [done|]. intros [= ->].
    by apply (Hadj 0%nat x x).
  - intros i a b Ha Hb. by apply (Hadj (S i) a b).
Qed.

Lemma replicate_run_inj {A} (x : A) k1 k2 l1 l2 :
  head l1 ≠ Some x → head l2 ≠ Some x →
  replicate k1 x ++ l1 = replicate k2 x ++ l2 → k1 = k2 ∧ l1 = l2.
Proof.
  intros H1 H2. revert k2.
  induction k1 as [|k1 IH]; intros [|k2]; cbn [replicate app].
  - done.
  - intros ->. by destruct H1.
  - intros <-. by destruct H2.
  - intros [= Heq]. destruct (IH _ Heq) as [-> ->]. done.
Qed.

Lemma expand_inj spans1 spans2 :
  Forall (λ sp : ConditionSpan, 1 ≤ sp.2) spans1 →
  Forall (λ sp : ConditionSpan, 1 ≤ sp.2) spans2 →
  adjacent_distinct spans1.*1 → adjacent_distinct spans2.*1 →
  expand spans1 = expand spans2 → spans1 = spans2.
Proof.
  intros Hpos1. revert spans2.
  induction Hpos1 as [|[c1 k1] spans1 Hk1 Hpos1 IH];
    intros spans2 Hpos2 Hadj1 Hadj2 Heq.
  - destruct Hpos2 as [|[c2 k2] spans2 Hk2 Hpos2]; [done|].
    apply (f_equal head) in Heq.
    rewrite !head_expand in Heq by (by constructor). done.
  - destruct Hpos2 as [|[c2 k2] spans2 Hk2 Hpos2].
    { apply (f_equal head) in Heq.
      rewrite !head_expand in Heq by (by constructor). done. }
    assert (c1 = c2) as <-.
    { apply (f_equal head) in Heq.
      rewrite !head_expand in Heq by (by constructor).
      by injection Heq. }
    rewrite !fmap_cons in Hadj1, Hadj2. cbn [fst snd] in *.
    apply adjacent_distinct_cons in Hadj1 as [Hhd1 Hadj1].
    apply adjacent_distinct_cons in Hadj2 as [Hhd2 Hadj2].
    rewrite !expand_cons in Heq. cbn [fst snd] in Heq.
    apply replicate_run_inj in Heq as [Hk Heq];
      [|by rewrite head_expand..].
    rewrite (IH spans2) by done.
    do 2 f_equal. lia.
Qed.

(** X19: the spans the encoder returns are the only run-length encoding of
    their window: every list of spans with runLengths of 1 or more, without
    two neighbours of the same condition, that stands for the same
    conditions is the list the encoder returns. *)
Theorem encoder_canonical forecast numHours hoursPerSegment offset
    (spans spans' : list ConditionSpan) :
  result (getConditionListFromForecast forecast numHours hoursPerSegment
            offset) = Returned spans →
  Forall (λ sp : ConditionSpan, 1 ≤ sp.2) spans' →
  adjacent_distinct spans'.*1 →
  expand spans' = expand spans →
  spans' = spans.
Proof.
  intros Hrun Hpos' Hadj' Heq.
  pose proof (encoder_any forecast numHours hoursPerSegment offset) as Henc.
  destruct (getConditionListFromForecast _ _ _ _) as [log [spans0| |]];
    cbn [result snd] in Hrun; [|done..].
  injection Hrun as ->.
  destruct Henc as (o & m & _ & _ & _ & _ & _ & Hpos & Hadj).
  by apply expand_inj.
Qed.

Lemma encoder_canonical_witness :
  [("sunny", 2); ("cloudy", 1)]
  = [("sunny", 2); ("cloudy", 1)] :> list ConditionSpan.
Proof.
  apply (encoder_canonical
           [segment "sunny" 0; segment "sunny" 1; segment "cloudy" 2;
            segment "rainy" 3]
           (Num 3) (Num 1) (Num 0)).
  - reflexivity.
  - repeat constructor; cbn; lia.
  - intros [|[|i]] x y; cbn; congruence.
  - reflexivity.
Defined.

(** ** What the encoder reads *)

Lemma element_conditions forecast1 forecast2 i :
  condition <$> forecast1 = condition <$> forecast2 →
  condition <$> element forecast1 i = condition <$> element forecast2 i.
Proof.
  intros Heq. unfold element. destruct (finite i) as [z|]; [|done].
  destruct (z <? 0); [done|]. by rewrite <- !list_lookup_fmap, Heq.
Qed.

Lemma for_loop_ext {S} fuel cond body1 body2 (s : S) :
  (∀ s, body1 s = body2 s) →
  for_loop fuel cond body1 s = for_loop fuel cond body2 s.
Proof.
  intros Hbody. revert s. induction fuel as [|fuel IH]; intros s; [done|].
  cbn [for_loop]. destruct (cond s); [|done].
  rewrite Hbody. unfold tell. rewrite !bind_Returned.
  destruct (body2 s) as [log [s'| |]]; [|done..].
  rewrite !bind_Returned. cbn [fst snd]. by rewrite IH.
Qed.

(** X20: the encoder looks at nothing but the conditions: on two forecasts
    with the same conditions in the same order, whatever their timestamps
    and temperatures, it makes the same steps and returns the same spans. *)
Theorem encoder_conditions_only forecast1 forecast2
    numHours hoursPerSegment offset :
  condition <$> forecast1 = condition <$> forecast2 →
  getConditionListFromForecast forecast1 numHours hoursPerSegment offset
  = getConditionListFromForecast forecast2 numHours hoursPerSegment offset.
Proof.
  intros Heq.
  assert (length forecast1 = length forecast2) as Hlen.
  { apply (f_equal length) in Heq. by rewrite !length_fmap in Heq. }
  assert (∀ st, enc_body forecast1 st = enc_body forecast2 st) as Hbody.
  { intros st. unfold enc_body.
    pose proof (element_conditions _ _ (enc_i st) Heq) as Hi.
    destruct (element forecast1 (enc_i st)) as [fs1|] eqn:E1,
      (element forecast2 (enc_i st)) as [fs2|] eqn:E2; try done.
    - injection Hi as Hi.
      rewrite (index_Some _ _ fs1), (index_Some _ _ fs2) by done.
      rewrite !bind_Returned. cbn [fst snd]. by rewrite Hi.
    - by rewrite !index_None. }
  unfold getConditionListFromForecast, getConditionListFromForecast_fuel.
  rewrite Hlen.
  pose proof (element_conditions _ _ offset Heq) as Ho.
  destruct (element forecast1 offset) as [fs1|] eqn:E1,
    (element forecast2 offset) as [fs2|] eqn:E2; try done.
  - injection Ho as Ho.
    rewrite (index_Some _ _ fs1), (index_Some _ _ fs2) by done.
    rewrite !bind_Returned. cbn [fst snd]. rewrite Ho.
    by rewrite (for_loop_ext _ _ _ _ _ Hbody).
  - by rewrite !index_None.
Qed.

Lemma encoder_conditions_only_witness :
  getConditionListFromForecast three_hourly (Num 6) (Num 3) (Num 0)
  = getConditionListFromForecast
      ((λ fs, {| datetime := 0; condition := condition fs;
                 temperature := QArith_base.Qmake 0 1 |}) <$> three_hourly)
      (Num 6) (Num 3) (Num 0).
Proof.
  apply (encoder_conditions_only three_hourly
           ((λ fs, {| datetime := 0; condition := condition fs;
                      temperature := QArith_base.Qmake 0 1 |})
              <$> three_hourly)).
  reflexivity.
Defined.
